(** * archupd: a shallow embedding of the updater and its properties

    The development follows [archupd.go] (the complete variant of the
    program) and, where the two differ, the earlier variant [updall.go].
    Go strings are byte strings: they are modelled by [string], maps
    [map[string]string] by [gmap string string], [time.Time] instants by
    integers, and the external world (files, child processes, the news
    server) by explicit state and oracles. *)

From Stdlib Require Import ZArith Ascii String List Lia Sorting.Sorted.
From stdpp Require Import base option list gmap strings sorting.

Local Open Scope Z_scope.

(** ** Go strings *)

Module GoStrings.

(** The newline byte and the one-byte string ["\n"]. *)
Definition LF : ascii := "010"%char.
Definition CR : ascii := "013"%char.
Definition nl : string := String LF "".

(** [strings.ContainsRune(cutset, c)] for a byte. *)
Fixpoint in_cutset (c : ascii) (cutset : string) : bool :=
  match cutset with
  | EmptyString => false
  | String d rest => if Ascii.eqb c d then true else in_cutset c rest
  end.

(** [strings.TrimRight(s, cutset)]: [s] without its trailing bytes
    that belong to [cutset]. *)
Fixpoint TrimRight (s cutset : string) : string :=
  match s with
  | EmptyString => EmptyString
  | String c rest =>
      match TrimRight rest cutset with
      | EmptyString => if in_cutset c cutset then EmptyString else String c EmptyString
      | r => String c r
      end
  end.

(** [strings.Split(s, sep)] for a one-byte separator: the pieces of [s]
    between the occurrences of [sep]; a string without [sep] (the empty
    one too) gives a single piece. *)
Fixpoint Split (s : string) (sep : ascii) : list string :=
  match s with
  | EmptyString => [EmptyString]
  | String c rest =>
      if Ascii.eqb c sep then EmptyString :: Split rest sep
      else match Split rest sep with
           | piece :: pieces => String c piece :: pieces
           | [] => [String c EmptyString]
           end
  end.

(** [strings.HasPrefix(s, p)], returning what follows the prefix. *)
Fixpoint CutPrefix (s p : string) {struct p} : option string :=
  match p, s with
  | EmptyString, _ => Some s
  | String a p', String b s' => if Ascii.eqb a b then CutPrefix s' p' else None
  | String _ _, EmptyString => None
  end.

(** [bytes.Contains(b, sub)]. *)
Fixpoint Contains (b sub : string) : bool :=
  match CutPrefix b sub with
  | Some _ => true
  | None => match b with
            | EmptyString => false
            | String _ rest => Contains rest sub
            end
  end.

End GoStrings.

Import GoStrings.

(** ** bufio.Scanner with the default split function, bufio.ScanLines *)

Module Bufio.

(** [bufio.MaxScanTokenSize]: the scanner's buffer never grows beyond
    this size, so a line needs fewer bytes than this before its newline
    (or before the end of the input). *)
Definition MaxScanTokenSize : Z := 64 * 1024.

(** [dropCR]: the line without one trailing carriage return. *)
Fixpoint dropCR (data : string) : string :=
  match data with
  | EmptyString => EmptyString
  | String c EmptyString => if Ascii.eqb c CR then EmptyString else data
  | String c rest => String c (dropCR rest)
  end.

(** The lines [ScanLines] is asked to deliver on a whole input: the
    pieces before each newline and, when it is not empty, the
    unterminated piece after the last newline. *)
Definition raw_lines (data : string) : list string :=
  let pieces := Split data LF in
  removelast pieces ++
    match List.last pieces EmptyString with
    | EmptyString => []
    | final => [final]
    end.

(** Whether the line, as it stands in the input, fits the buffer. *)
Definition fits (line : string) : bool :=
  Z.of_nat (String.length line) <? MaxScanTokenSize.

(** The lines up to the first one that does not fit. *)
Fixpoint take_fitting (ls : list string) : list string :=
  match ls with
  | [] => []
  | l :: rest => if fits l then l :: take_fitting rest else []
  end.

(** The loop [for scanner.Scan() { ... scanner.Bytes() ... }] over an
    input: the tokens seen by the loop body, in order. [Scan] returns
    false at the end of the input and also, with [ErrTooLong], at the
    first line that does not fit the buffer; no caller in this program
    looks at [scanner.Err()], so both simply end the loop. *)
Definition Scan (data : string) : list string :=
  dropCR <$> take_fitting (raw_lines data).

End Bufio.

(** ** The changelog header pattern *)

Module Regexp.

(** Splits a non-empty string into all but its last byte, and its last
    byte. *)
Fixpoint cut_last (s : string) : option (string * ascii) :=
  match s with
  | EmptyString => None
  | String c rest =>
      match cut_last rest with
      | None => Some (EmptyString, c)
      | Some (init, z) => Some (String c init, z)
      end
  end.

(** [CHANGELOG_PACKAGE_REGEXP.FindSubmatch(line)] for the pattern
    [^Changelog for (.+):$], returning the submatch [matches[1]]. The
    pattern is anchored at both ends, so the line is the literal prefix,
    a name and a final colon; [.+] takes one or more bytes other than
    the newline, which leaves exactly one way to match. *)
Definition FindSubmatch (line : string) : option string :=
  match CutPrefix line "Changelog for " with
  | None => None
  | Some rest =>
      match cut_last rest with
      | Some (name, c) =>
          if Ascii.eqb c ":"%char && negb (String.eqb name "") &&
             negb (in_cutset LF name)
          then Some name else None
      | None => None
      end
  end.

End Regexp.

(** ** The operating system seen by the program *)

Module OS.

(** Go [error] values: [*exec.ExitError] carries the exit code of the
    child process ([-1] when a signal ended it); every other error
    (a command that cannot be started, a file that cannot be opened) is
    kept as its text. *)
Inductive error : Type :=
  | ExitError (code : Z)
  | OtherError (msg : string).

(** What the program writes on its standard output: text, an error
    printed with [fmt.Println(err)], and a call of [diff.Text] of the
    diff library, which renders on [os.Stdout]. *)
Inductive Output : Type :=
  | Text (s : string)
  | PrintError (e : error)
  | DiffText (aName bName a b : string).

(** What a child process does: it may fail to start (its pipe or the
    process itself cannot be made), write on its standard output, end
    with an error, and change files. *)
Record CmdOutcome : Type := {
  start_err : option error;
  cmd_stdout : string;
  wait_err : option error;
  files_after : gmap string string
}.

(** The state threaded through the program: the files by path, the
    output so far and the commands run so far (their argument vectors),
    both oldest first. *)
Record World : Type := {
  files : gmap string string;
  stdout : list Output;
  execs : list (list string)
}.

(** A computation either returns with a new state or ends the process
    with [os.Exit(code)]. *)
Inductive Res (A : Type) : Type :=
  | Ret (a : A) (w : World)
  | Exit (code : Z) (w : World).
Global Arguments Ret {A} a w.
Global Arguments Exit {A} code w.

Definition Prog (A : Type) : Type := World → Res A.

Global Instance prog_ret : MRet Prog := λ A a w, Ret a w.
Global Instance prog_bind : MBind Prog := λ A B f m w,
  match m w with
  | Ret a w' => f a w'
  | Exit code w' => Exit code w'
  end.

Definition world_of {A} (r : Res A) : World :=
  match r with Ret _ w => w | Exit _ w => w end.

Definition put (o : Output) : Prog unit := λ w,
  Ret () {| files := files w; stdout := stdout w ++ [o]; execs := execs w |}.

(** [fmt.Println(s)] and [fmt.Println(err)]. *)
Definition Println (s : string) : Prog unit := put (Text (s +:+ nl)).
Definition PrintlnErr (e : error) : Prog unit := put (PrintError e).

Definition os_Exit {A} (code : Z) : Prog A := λ w, Exit code w.

(** An open file: the file it names and the offset of the next read.
    The content stays in [files], where other processes append to it;
    the path is taken to name the same file for as long as the file is
    open. *)
Record File : Type := { file_path : string; file_pos : nat }.

(** [os.Open(path)]. *)
Definition Open (path : string) : Prog (File + error) := λ w,
  match files w !! path with
  | Some _ => Ret (inl {| file_path := path; file_pos := 0 |}) w
  | None => Ret (inr (OtherError ("open " +:+ path +:+ ": no such file or directory"))) w
  end.

(** [f.Seek(0, os.SEEK_END)]: the offset becomes the current size. *)
Definition SeekEnd (f : File) : Prog (File * option error) := λ w,
  match files w !! file_path f with
  | Some content =>
      Ret ({| file_path := file_path f; file_pos := String.length content |}, None) w
  | None => Ret (f, Some (OtherError "seek: file already closed")) w
  end.

(** Skips the first [n] bytes. *)
Fixpoint skip (n : nat) (s : string) : string :=
  match n, s with
  | O, _ => s
  | S n', String _ rest => skip n' rest
  | S _, EmptyString => EmptyString
  end.

(** Reading the file to its end ([Read] until [io.EOF]): the bytes from
    the offset on, as they are at the time of the read. *)
Definition ReadToEnd (f : File) : Prog string := λ w,
  Ret (skip (file_pos f) (default EmptyString (files w !! file_path f))) w.

End OS.

Import OS.

(** ** The program: commands, changelogs, log monitor, orchestration *)

Module Archupd.

Definition PACMAN_LOG_PATH : string := "/var/log/pacman.log".
Definition PACMAN_LOG_ALPM_MARKER : string := " [ALPM] ".

(** The state of the loop of [getChangelogs]. *)
Record Changelogs : Type := {
  result : gmap string string;
  currPkg : string;
  currLog : string
}.

Definition flush (st : Changelogs) : gmap string string :=
  if decide (currPkg st ≠ "") then <[currPkg st := currLog st]> (result st)
  else result st.

(** The body of [for scanner.Scan() { ... }] in [getChangelogs]. *)
Definition scan_step (st : Changelogs) (line : string) : Changelogs :=
  match Regexp.FindSubmatch line with
  | Some name => {| result := flush st; currPkg := name; currLog := "" |}
  | None => {| result := result st; currPkg := currPkg st;
               currLog := currLog st +:+ line +:+ nl |}
  end.

(** [getChangelogs] on the text the query wrote: the loop over the
    scanner and the final flush. *)
Definition parseChangelogs (output : string) : gmap string string :=
  flush (foldl scan_step {| result := ∅; currPkg := ""; currLog := "" |}
           (Bufio.Scan output)).

Section Program.

(** The child processes: what a command does, given the commands run
    before it and the files as they are. *)
Variable system : list (list string) → list string → gmap string string → CmdOutcome.

(** The order in which [range] visits a map; Go leaves it unspecified. *)
Variable range_order : gmap string string → list (string * string).
Hypothesis range_order_perm : ∀ m, range_order m ≡ₚ map_to_list m.

(** Whether [diff.Text] reports an error after rendering. *)
Variable diff_err : string → string → option error.

(** [cmd.Run()] with the streams of the terminal. *)
Definition Run (argv : list string) : Prog (option error) := λ w,
  let o := system (execs w) argv (files w) in
  let w' := {| files := files w; stdout := stdout w; execs := execs w ++ [argv] |} in
  match start_err o with
  | Some e => Ret (Some e) w'
  | None => Ret (wait_err o)
              {| files := files_after o; stdout := stdout w; execs := execs w ++ [argv] |}
  end.

(** [cmd.Run()] with [cmd.Stdout] set to a [strings.Builder]. *)
Definition RunCapture (argv : list string) : Prog (string * option error) := λ w,
  let o := system (execs w) argv (files w) in
  let w' := {| files := files w; stdout := stdout w; execs := execs w ++ [argv] |} in
  match start_err o with
  | Some e => Ret (EmptyString, Some e) w'
  | None => Ret (cmd_stdout o, wait_err o)
              {| files := files_after o; stdout := stdout w; execs := execs w ++ [argv] |}
  end.

Definition pacman (args : list string) : Prog (option error) :=
  Run ("sudo" :: "pacman" :: args).

Definition removeSuperfluousPackages : Prog (option error) :=
  '(output, err) ← RunCapture ["sudo"; "pacman"; "-Qqtd"];
  match err with
  | Some (ExitError code) =>
      if code =? 1 then
        Println (nl +:+ "No superfluous packages.");; mret None
      else mret (Some (ExitError code))
  | Some e => mret (Some e)
  | None =>
      let pkgs := Split (TrimRight output nl) LF in
      if (length pkgs =? 0)%nat then mret None
      else
        Println (nl +:+ "Superfluous packages can be removed:");;
        Run (["sudo"; "pacman"; "-Rs"] ++ pkgs)
  end.

(** [getChangelogs], for outputs whose lines all fit the scanner: the
    loop then reads the pipe to its end before [cmd.Wait()]. Where a
    line does not fit, the loop ends with output left unread in the
    pipe, and [cmd.Wait()] returns only if the command can still finish
    writing; that case has no counterpart here. *)
Definition getChangelogs : Prog (gmap string string + error) := λ w,
  let argv := ["pacman"; "-Qc"] in
  let o := system (execs w) argv (files w) in
  let w' := {| files := files w; stdout := stdout w; execs := execs w ++ [argv] |} in
  match start_err o with
  | Some e => Ret (inr e) w'
  | None =>
      let result := parseChangelogs (cmd_stdout o) in
      let w'' := {| files := files_after o; stdout := stdout w;
                    execs := execs w ++ [argv] |} in
      match wait_err o with
      | Some e => Ret (inr e) w''
      | None => Ret (inl result) w''
      end
  end.

(** [logMonitor] embeds the open file. *)
Definition newLogMonitor (path : string) : Prog (File + error) :=
  r ← Open path;
  match r with
  | inr e => mret (inr e)
  | inl f =>
      '(f', err) ← SeekEnd f;
      match err with
      | Some e => mret (inr e)
      | None => mret (inl f')
      end
  end.

(** [m.lines()] followed by the loop over the scanner: the scanner
    reads the monitor to its end, the loop sees its tokens. *)
Definition lines (m : File) : Prog (list string) :=
  data ← ReadToEnd m; mret (Bufio.Scan data).

(** [catchUp] of [updall.go]: [io.ReadAll] on the monitor. *)
Definition catchUp (m : File) : Prog (string * option error) :=
  b ← ReadToEnd m; mret (b, None).

(** One pass of the loop body of [showChangelogDiff]. *)
Definition diff_step (changelogsPre : gmap string string)
    (foundAny : bool) (entry : string * string) : Prog bool :=
  let '(pkg, logPost) := entry in
  match changelogsPre !! pkg with
  | Some logPre =>
      if decide (logPre ≠ logPost) then
        (if foundAny then mret () else Println (nl +:+ "Changelog diffs:" +:+ nl));;
        put (DiffText (pkg +:+ " (before)") (pkg +:+ " (after)") logPre logPost);;
        match diff_err logPre logPost with
        | Some e => PrintlnErr e
        | None => mret ()
        end;;
        mret true
      else mret foundAny
  | None => mret foundAny
  end.

Fixpoint diff_loop (changelogsPre : gmap string string) (foundAny : bool)
    (entries : list (string * string)) : Prog bool :=
  match entries with
  | [] => mret foundAny
  | entry :: rest =>
      found ← diff_step changelogsPre foundAny entry;
      diff_loop changelogsPre found rest
  end.

Definition showChangelogDiff (changelogsPre changelogsPost : gmap string string)
    : Prog unit :=
  foundAny ← diff_loop changelogsPre false (range_order changelogsPost);
  if (foundAny : bool) then mret () else Println (nl +:+ "No updated changelogs.").

Definition exitOnError (err : option error) : Prog unit :=
  match err with
  | Some e => PrintlnErr e;; os_Exit (A:=unit) 1
  | None => mret ()
  end.

Definition exitOnFailure {A} (r : A + error) : Prog A :=
  match r with
  | inl a => mret a
  | inr e => PrintlnErr e;; os_Exit 1
  end.

(** The body of the loop of [main] over the lines of the log tail. *)
Definition tail_step (foundALPMLogs : bool) (line : string) : Prog bool :=
  if Contains line PACMAN_LOG_ALPM_MARKER then
    (if foundALPMLogs then mret () else Println (nl +:+ "ALPM logs:"));;
    put (Text (line +:+ nl));;
    mret true
  else mret foundALPMLogs.

Fixpoint tail_loop (foundALPMLogs : bool) (ls : list string) : Prog bool :=
  match ls with
  | [] => mret foundALPMLogs
  | line :: rest =>
      found ← tail_step foundALPMLogs line;
      tail_loop found rest
  end.

Definition dq : string := String "034"%char "".

Definition HELP_STR : string :=
  nl +:+ "  Arch Linux updater. Run without args and it will:" +:+ nl +:+ nl +:+
  "  - Run " +:+ dq +:+ "sudo pacman -Sc" +:+ dq +:+ " to clean up old packages." +:+ nl +:+
  "  - Run " +:+ dq +:+ "sudo pacman -Syu" +:+ dq +:+ " to update outdated packages." +:+ nl +:+
  "  - Show relevant pacman logfile contents, which includes the old and new version of each package." +:+ nl +:+
  "  - Show any new package changelog entries." +:+ nl +:+
  "  - Offer to remove packages that have become unrequired." +:+ nl +:+
  "  - Display any new official Arch Linux news from RSS feed." +:+ nl.

Definition showHelp (arg0 : string) : Prog unit :=
  put (Text ("Usage: " +:+ arg0 +:+ nl +:+ HELP_STR)).

Fixpoint drain (news : list string) : Prog unit :=
  match news with
  | [] => mret ()
  | s :: rest => Println s;; drain rest
  end.

(** The steps of [main] after the log tail was read. *)
Definition after_tail (foundALPMLogs : bool)
    (changelogsPre : gmap string string) : Prog unit :=
  if foundALPMLogs then
    r ← getChangelogs;
    changelogsPost ← exitOnFailure r;
    showChangelogDiff changelogsPre changelogsPost;;
    err ← removeSuperfluousPackages;
    exitOnError err
  else mret ().

(** The steps of [main] up to the reading of the log tail: what they
    hand to the rest of [main]. *)
Definition prelude : Prog (gmap string string * list string) :=
  err ← pacman ["-Sc"; "--noconfirm"];
  exitOnError err;;
  r ← getChangelogs;
  changelogsPre ← exitOnFailure r;
  r ← newLogMonitor PACMAN_LOG_PATH;
  logMon ← exitOnFailure r;
  err ← pacman ["-Syu"; "--noconfirm"];
  exitOnError err;;
  ls ← lines logMon;
  mret (changelogsPre, ls).

(** [main], from the return of [flag.Parse()] on: [helpFlag] is the
    flag as parsed. The news poller runs beside it and shares nothing
    with it but the channel: [news] is what the channel delivers until
    it is closed. The output recorded is what [main] itself prints; what
    the poller prints on standard output, and a panic of the poller, are
    no part of it. *)
Definition main (helpFlag : bool) (arg0 : string) (news : list string) : Prog unit :=
  if helpFlag then showHelp arg0
  else
    err ← pacman ["-Sc"; "--noconfirm"];
    exitOnError err;;
    r ← getChangelogs;
    changelogsPre ← exitOnFailure r;
    r ← newLogMonitor PACMAN_LOG_PATH;
    logMon ← exitOnFailure r;
    err ← pacman ["-Syu"; "--noconfirm"];
    exitOnError err;;
    ls ← lines logMon;
    foundALPMLogs ← tail_loop false ls;
    after_tail foundALPMLogs changelogsPre;;
    put (Text nl);;
    drain news.

(** *** Observing a run

    What follows is not part of the program: names for its commands and
    for what it prints, used to state what a run did. *)

Definition orphan_query : list string := ["sudo"; "pacman"; "-Qqtd"].
Definition changelog_query : list string := ["pacman"; "-Qc"].

(** The changelog query output of the scenario. *)
Definition scenario_output : string :=
  "Changelog for foo:" +:+ nl +:+ "line1" +:+ nl +:+
  "Changelog for bar:" +:+ nl +:+ "line2" +:+ nl +:+ "line3" +:+ nl.

Definition cleanup_cmd : list string := ["sudo"; "pacman"; "-Sc"; "--noconfirm"].
Definition upgrade_cmd : list string := ["sudo"; "pacman"; "-Syu"; "--noconfirm"].

(** The state in which a run starts. *)
Definition start (fs : gmap string string) : World :=
  {| files := fs; stdout := []; execs := [] |}.

(** Whether the loop over the log tail finds a marker line, and what it
    prints. *)
Definition found_marker (ls : list string) : bool :=
  existsb (λ line, Contains line PACMAN_LOG_ALPM_MARKER) ls.

Definition alpm_lines (ls : list string) : list Output :=
  (λ line, Text (line +:+ nl)) <$>
    filter (λ line, Is_true (Contains line PACMAN_LOG_ALPM_MARKER)) ls.

Definition alpm_output (ls : list string) : list Output :=
  if found_marker ls then Text ((nl +:+ "ALPM logs:") +:+ nl) :: alpm_lines ls else [].

Definition news_output (news : list string) : list Output :=
  (λ s, Text (s +:+ nl)) <$> news.

(** The state after a command was run, and after something was printed. *)
Definition ran (w : World) (argv : list string) (fs : gmap string string) : World :=
  {| files := fs; stdout := stdout w; execs := execs w ++ [argv] |}.

Definition printed (w : World) (o : Output) : World :=
  {| files := files w; stdout := stdout w ++ [o]; execs := execs w |}.

Definition emit (w : World) (out : list Output) : World :=
  {| files := files w; stdout := stdout w ++ out; execs := execs w |}.
Global Arguments emit : simpl never.

(** What one pass of the loop of [showChangelogDiff] prints. *)
Definition diff_output (changelogsPre : gmap string string) (foundAny : bool)
    (entry : string * string) : list Output :=
  match changelogsPre !! entry.1 with
  | Some logPre =>
      if decide (logPre ≠ entry.2) then
        (if foundAny then [] else [Text ((nl +:+ "Changelog diffs:" +:+ nl) +:+ nl)]) ++
        [DiffText (entry.1 +:+ " (before)") (entry.1 +:+ " (after)") logPre entry.2] ++
        match diff_err logPre entry.2 with
        | Some e => [PrintError e]
        | None => []
        end
      else []
  | None => []
  end.

(** Whether the pass renders a diff. *)
Definition changed (changelogsPre : gmap string string) (entry : string * string) : bool :=
  match changelogsPre !! entry.1 with
  | Some logPre => bool_decide (logPre ≠ entry.2)
  | None => false
  end.

Fixpoint diff_outputs (changelogsPre : gmap string string) (foundAny : bool)
    (entries : list (string * string)) : list Output :=
  match entries with
  | [] => []
  | entry :: rest =>
      diff_output changelogsPre foundAny entry ++
      diff_outputs changelogsPre (foundAny || changed changelogsPre entry) rest
  end.

(** The output holds a rendering for the package: a call of [diff.Text]
    labelled with its name. *)
Definition rendered (pkg : string) (out : list Output) : Prop :=
  ∃ a b, DiffText (pkg +:+ " (before)") (pkg +:+ " (after)") a b ∈ out.

End Program.

End Archupd.

(** ** The news poller *)

Module News.

Record FeedItem : Type := {
  Title : string;
  Link : string;
  Time : Z;
  GUID : string
}.

(** [State]: instants of [time.Time] are integers, the zero [time.Time]
    is [0]. *)
Record State : Type := {
  LastModified : string;
  LatestItemTime : Z
}.

Definition State_zero : State := {| LastModified := ""; LatestItemTime := 0 |}.

(** [t.After(u)]. *)
Definition After (t u : Z) : bool := u <? t.

(** The state file as [os.Open] finds it: absent ([fs.ErrNotExist]),
    not to be opened for another reason, or there with some content. *)
Inductive StateFile : Type :=
  | Missing
  | Unreadable (err : error)
  | Content (data : string).

(** What [http.DefaultClient.Do] returns: an error, or a response with
    its status code, status text, the values of its [Last-Modified]
    header ([[]] for [nil]) and its body. *)
Inductive HttpResult : Type :=
  | SendError (msg : string)
  | Response (StatusCode : Z) (Status : string) (lastMod : list string) (Body : string).

(** The world of one poll. *)
Record Env : Type := {
  state_file : StateFile;
  request_err : option string;
  http_do : list (string * string) → HttpResult;
  mkdir_err : option error;
  create_err : option error
}.

(** What a poll leaves behind: the lines sent on the channel before it
    is closed, the errors printed, the states handed to [writeState], and
    the state file. *)
Record Outcome : Type := {
  channel : list string;
  printed : list error;
  written : list State;
  file_after : StateFile
}.

Definition StatusOK : Z := 200.
Definition StatusNotModified : Z := 304.

Section Poller.

(** [json.NewDecoder(f).Decode(&state)]: the record as the decoder leaves
    it (its error is dropped by [readState]); [json.NewEncoder(f).Encode]. *)
Variable json_decode : string → State → State.
Variable json_encode : State → string.

(** [xml.NewDecoder(body).Decode(&feed)]: an error text, or the items. *)
Variable xml_decode : string → string + list FeedItem.

(** [t.Local().Format("2006-01-02 15:04")]. *)
Variable format_local : Z → string.

(** [sort.Slice(items, less)] with [less] = later first: some
    rearrangement of the items in which no item is followed by a later
    one; the order of items of equal time is not fixed. *)
Variable sort_slice : list FeedItem → list FeedItem.
Hypothesis sort_slice_perm : ∀ items, sort_slice items ≡ₚ items.
Hypothesis sort_slice_sorted : ∀ items,
  StronglySorted (λ a b, Time b <= Time a) (sort_slice items).

(** [readState] of [archupd.go], from [os.Open] on, that is once
    [stateFileName()] has returned: the state and the error it prints. *)
Definition readState (env : Env) : State * list error :=
  match state_file env with
  | Missing => (State_zero, [])
  | Unreadable err => (State_zero, [err])
  | Content data => (json_decode data State_zero, [])
  end.

(** [writeState]: the error it prints, and the state file afterwards. *)
Definition writeState (env : Env) (state : State) : list error * StateFile :=
  match mkdir_err env with
  | Some e => ([e], state_file env)
  | None =>
      match create_err env with
      | Some e => ([e], state_file env)
      | None => ([], Content (json_encode state))
      end
  end.

Definition item_line (item : FeedItem) : string :=
  "  - " +:+ format_local (Time item) +:+ ": " +:+ Title item +:+
  " (" +:+ Link item +:+ ")".

(** The loop over the sorted items: the lines sent so far and
    [foundAny]. *)
Definition news_step (latest : Z) (acc : list string * bool) (item : FeedItem)
    : list string * bool :=
  if After (Time item) latest then
    (acc.1 ++ (if acc.2 then [] else ["Arch Linux news:"]) ++ [item_line item], true)
  else acc.

Definition request_headers (state : State) : list (string * string) :=
  if decide (LastModified state ≠ "") then [("If-Modified-Since", LastModified state)]
  else [].

Definition capture_validator (state : State) (lastMod : list string) : State :=
  match lastMod with
  | v :: _ => {| LastModified := v; LatestItemTime := LatestItemTime state |}
  | [] => state
  end.

(** A poll that ends without [writeState]. *)
Definition no_write (env : Env) (diag : list error) (msg : string) : Outcome :=
  {| channel := [msg]; printed := diag; written := []; file_after := state_file env |}.

(** A poll that ends through the deferred [writeState(&state)]. *)
Definition with_write (env : Env) (diag : list error) (msgs : list string)
    (state : State) : Outcome :=
  let '(errs, file) := writeState env state in
  {| channel := msgs; printed := diag ++ errs; written := [state]; file_after := file |}.

(** [readNews] of [archupd.go] from the state it loaded. *)
Definition poll (env : Env) (state : State) (diag : list error) : Outcome :=
  match request_err env with
  | Some e => no_write env diag ("Arch Linux news: failed to formulate request: " +:+ e)
  | None =>
      match http_do env (request_headers state) with
      | SendError e => no_write env diag ("Arch Linux news: failed to send request: " +:+ e)
      | Response code status lastMod body =>
          if code =? StatusNotModified then no_write env diag "No Arch Linux news."
          else if negb (code =? StatusOK) then
            no_write env diag ("Arch Linux news: unexpected HTTP status: " +:+ status)
          else
            let state := capture_validator state lastMod in
            match xml_decode body with
            | inl e => no_write env diag ("Arch Linux news: failed to decode feed: " +:+ e)
            | inr feed_items =>
                match sort_slice feed_items with
                | [] => with_write env diag ["No Arch Linux news (empty feed)."] state
                | first :: rest =>
                    let '(sent, foundAny) :=
                      foldl (news_step (LatestItemTime state)) ([], false) (first :: rest) in
                    let state' := {| LastModified := LastModified state;
                                     LatestItemTime := Time first |} in
                    with_write env diag
                      (sent ++ if foundAny then [] else ["No Arch Linux news."]) state'
                end
            end
      end
  end.

Definition readNews (env : Env) : Outcome :=
  let '(state, diag) := readState env in poll env state diag.

End Poller.

End News.

(** ** The news poller of [updall.go] *)

Module Updall.

Import News.

Section Poller.

Variable json_decode : string → State → State.
Variable json_encode : State → string.
Variable xml_decode : string → string + list FeedItem.
Variable format_local : Z → string.
Variable sort_slice : list FeedItem → list FeedItem.

(** [readState] of [updall.go] prints every error of [os.Open]. *)
Definition readState (env : Env) : State * list error :=
  match state_file env with
  | Missing => (State_zero, [OtherError "open: no such file or directory"])
  | Unreadable err => (State_zero, [err])
  | Content data => (json_decode data State_zero, [])
  end.

(** [writeState] of [updall.go] creates no directory. *)
Definition writeState (env : Env) (state : State) : list error * StateFile :=
  match create_err env with
  | Some e => ([e], state_file env)
  | None => ([], Content (json_encode state))
  end.

Definition item_line (item : FeedItem) : string :=
  format_local (Time item) +:+ ": " +:+ Title item +:+ " (" +:+ Link item +:+ ")".

Definition news_step (latest : Z) (acc : list string * bool) (item : FeedItem)
    : list string * bool :=
  if After (Time item) latest then (acc.1 ++ [item_line item], true) else acc.

Definition no_write (env : Env) (diag : list error) (msg : string) : Outcome :=
  {| channel := [msg]; printed := diag; written := []; file_after := state_file env |}.

Definition with_write (env : Env) (diag : list error) (msgs : list string)
    (state : State) : Outcome :=
  let '(errs, file) := writeState env state in
  {| channel := msgs; printed := diag ++ errs; written := [state]; file_after := file |}.

(** [readNews] of [updall.go] from the state it loaded: [defer
    writeState(&state)] stands before the feed is decoded. *)
Definition poll (env : Env) (state : State) (diag : list error) : Outcome :=
  match request_err env with
  | Some e => no_write env diag ("Failed to formulate request: " +:+ e)
  | None =>
      match http_do env (request_headers state) with
      | SendError e => no_write env diag ("Failed to send request: " +:+ e)
      | Response code status lastMod body =>
          if code =? StatusNotModified then no_write env diag "No news (HTTP 304)"
          else if negb (code =? StatusOK) then
            no_write env diag ("Unexpected HTTP status: " +:+ status)
          else
            let state := capture_validator state lastMod in
            match xml_decode body with
            | inl e => with_write env diag [e] state
            | inr feed_items =>
                match sort_slice feed_items with
                | [] => with_write env diag ["No news (empty RSS feed)"] state
                | first :: rest =>
                    let '(sent, gotAny) :=
                      foldl (news_step (LatestItemTime state)) ([], false) (first :: rest) in
                    let state' := {| LastModified := LastModified state;
                                     LatestItemTime := Time first |} in
                    with_write env diag
                      (sent ++ if gotAny then [] else ["No new news (HTTP 200)"]) state'
                end
            end
      end
  end.

Definition readNews (env : Env) : Outcome :=
  let '(state, diag) := readState env in poll env state diag.

End Poller.

End Updall.

(** ** The name of the state file *)

Module NewsHost.

Import News.

(** What the state store depends on outside the program: the
    environment variable as [os.Getenv] gives it (empty when it is not
    set), the home directory as [os.UserHomeDir] gives it, and, for each
    file name, the world of a poll whose state file has this name. *)
Record Host : Type := {
  XDG_STATE_HOME : string;
  UserHomeDir : string + error;
  at_path : string → Env
}.

(** A call returns, or panics with an error. *)
Inductive Call (A : Type) : Type :=
  | Returns (a : A)
  | Panics (err : error).
Global Arguments Returns {A} a.
Global Arguments Panics {A} err.

Section Store.

(** [filepath.Join]. *)
Variable Join : list string → string.

Variable json_decode : string → State → State.

Definition stateFileName (host : Host) : Call string :=
  if decide (XDG_STATE_HOME host = "") then
    match UserHomeDir host with
    | inr err => Panics err
    | inl homePath =>
        Returns (Join [Join [homePath; ".local"; "state"]; "archupd.json"])
    end
  else Returns (Join [XDG_STATE_HOME host; "archupd.json"]).

(** [readState]: in [os.Open(stateFileName())] the name is formed
    first, and a panic there is the caller's. *)
Definition readState (host : Host) : Call (State * list error) :=
  match stateFileName host with
  | Panics err => Panics err
  | Returns name => Returns (News.readState json_decode (at_path host name))
  end.

End Store.

End NewsHost.

(** ** The orchestration of [updall.go] *)

Module UpdallMain.

Import Archupd.

Definition PACMAN_LOGFILE_PATH : string := "/var/log/pacman.log".

Section Program.

Variable system : list (list string) → list string → gmap string string → CmdOutcome.

(** [removeSuperfluousPackages] of [updall.go]: the lines it prints
    start without a blank line. *)
Definition removeSuperfluousPackages : Prog (option error) :=
  '(output, err) ← RunCapture system ["sudo"; "pacman"; "-Qqtd"];
  match err with
  | Some (ExitError code) =>
      if code =? 1 then
        Println "No superfluous packages.";; mret None
      else mret (Some (ExitError code))
  | Some e => mret (Some e)
  | None =>
      let pkgs := Split (TrimRight output nl) LF in
      if (length pkgs =? 0)%nat then mret None
      else
        Println "Superfluous packages can be removed:";;
        Run system (["sudo"; "pacman"; "-Rs"] ++ pkgs)
  end.

(** The loop of [main] over the channel: [fmt.Printf("  - %s\n", s)]. *)
Fixpoint drain (news : list string) : Prog unit :=
  match news with
  | [] => mret ()
  | s :: rest => put (Text (("  - " +:+ s) +:+ nl));; drain rest
  end.

(** [main] of [updall.go]: no changelog snapshots, the whole log tail is
    printed, and the orphan query follows whatever the tail holds. *)
Definition main (news : list string) : Prog unit :=
  err ← pacman system ["-Sc"; "--noconfirm"];
  exitOnError err;;
  r ← newLogMonitor PACMAN_LOGFILE_PATH;
  logMon ← exitOnFailure r;
  err ← pacman system ["-Syu"; "--noconfirm"];
  exitOnError err;;
  '(logs, err) ← catchUp logMon;
  exitOnError err;;
  put (Text logs);;
  err ← removeSuperfluousPackages;
  exitOnError err;;
  Println (nl +:+ "Arch Linux news:");;
  drain news.

End Program.

End UpdallMain.

(** ** The changelog parsing algorithm, as the specification words it *)

Module Spec.

(** The lines of a text, each with its trailing newline; a last line
    that no newline ends is a line too. *)
Definition text_lines (text : string) : list string :=
  let pieces := Split text LF in
  ((λ piece, piece +:+ nl) <$> removelast pieces) ++
    match List.last pieces EmptyString with
    | EmptyString => []
    | final => [final]
    end.

(** The line without its trailing newline. *)
Fixpoint chomp (line : string) : string :=
  match line with
  | EmptyString => EmptyString
  | String c EmptyString => if Ascii.eqb c LF then EmptyString else line
  | String c rest => String c (chomp rest)
  end.

(** The header pattern: the line reads [Changelog for <name>:], with
    some name. *)
Definition header_name (line : string) : option string :=
  match CutPrefix (chomp line) "Changelog for " with
  | None => None
  | Some rest =>
      match Regexp.cut_last rest with
      | Some (name, c) =>
          if Ascii.eqb c ":"%char && negb (String.eqb name "") then Some name else None
      | None => None
      end
  end.

(** The result so far, and the package being accumulated with its
    buffer, if a header was seen. *)
Record Accum : Type := {
  mapping : gmap string string;
  current : option (string * string)
}.

Definition flush_current (acc : Accum) : gmap string string :=
  match current acc with
  | Some (name, buffer) => <[name := buffer]> (mapping acc)
  | None => mapping acc
  end.

(** A header line flushes the package before it, if any, and starts a
    new buffer; any other line is appended verbatim to the buffer of the
    current package. *)
Definition accumulate (acc : Accum) (line : string) : Accum :=
  match header_name line with
  | Some name => {| mapping := flush_current acc; current := Some (name, EmptyString) |}
  | None =>
      {| mapping := mapping acc;
         current := (λ '(name, buffer), (name, buffer +:+ line)) <$> current acc |}
  end.

(** Scan line by line; at the end of the input, flush the last
    package. *)
Definition getChangelogs (text : string) : gmap string string :=
  flush_current (foldl accumulate {| mapping := ∅; current := None |} (text_lines text)).

(** A carriage return at the end of the line. *)
Definition ends_with_CR (line : string) : bool :=
  match Regexp.cut_last line with
  | Some (_, c) => Ascii.eqb c CR
  | None => false
  end.

(** Texts made of newline-terminated lines that fit the scanner and do
    not end in a carriage return. *)
Definition plain_lines (text : string) : bool :=
  forallb (λ piece, Bufio.fits piece && negb (ends_with_CR piece)) (Split text LF) &&
  String.eqb (List.last (Split text LF) EmptyString) EmptyString.

End Spec.

(** * Properties *)

(** ** Go strings *)

Module StringFacts.

Lemma app_nil_r (s : string) : s +:+ "" = s.
Proof. induction s as [|c s IH]; [done|]. unfold String.app in *; simpl. by rewrite IH. Qed.

Lemma app_assoc (s t u : string) : (s +:+ t) +:+ u = s +:+ (t +:+ u).
Proof. induction s as [|c s IH]; [done|]. unfold String.app in *; simpl. by rewrite IH. Qed.

Lemma app_cons (c : ascii) (s t : string) : String c s +:+ t = String c (s +:+ t).
Proof. reflexivity. Qed.

Lemma length_app (s t : string) :
  String.length (s +:+ t) = (String.length s + String.length t)%nat.
Proof. induction s as [|c s IH]; [done|]. rewrite app_cons; simpl. by rewrite IH. Qed.

(** Appending the same suffix to different strings gives different
    strings. *)
Lemma app_inv_tail (s1 s2 t : string) : s1 +:+ t = s2 +:+ t → s1 = s2.
Proof.
  revert s2. induction s1 as [|c s1 IH]; intros [|d s2] H.
  - done.
  - apply (f_equal String.length) in H. rewrite app_cons in H.
    change ("" +:+ t) with t in H. simpl in H. rewrite length_app in H. lia.
  - apply (f_equal String.length) in H. rewrite app_cons in H.
    change ("" +:+ t) with t in H. simpl in H. rewrite length_app in H. lia.
  - rewrite !app_cons in H. injection H as -> H. f_equal. by apply IH.
Qed.

Lemma Split_nonempty s sep : Split s sep ≠ [].
Proof.
  induction s as [|c s IH]; simpl; [done|].
  destruct (Ascii.eqb c sep); [done|].
  by destruct (Split s sep).
Qed.

Lemma CutPrefix_app p r : CutPrefix (p +:+ r) p = Some r.
Proof.
  induction p as [|a p IH]; [reflexivity|].
  rewrite app_cons; simpl.
  by rewrite Ascii.eqb_refl.
Qed.

Lemma CutPrefix_Some s p r : CutPrefix s p = Some r → s = p +:+ r.
Proof.
  revert s. induction p as [|a p IH]; intros s; simpl.
  - by intros [= ->].
  - destruct s as [|b s]; [done|].
    destruct (Ascii.eqb a b) eqn:E; [|done].
    apply Ascii.eqb_eq in E as ->. intros ->%IH. reflexivity.
Qed.

Lemma FindSubmatch_nonempty line name :
  Regexp.FindSubmatch line = Some name → name ≠ "".
Proof.
  unfold Regexp.FindSubmatch.
  destruct (CutPrefix line _) as [rest|]; [|done].
  destruct (Regexp.cut_last rest) as [[n c]|]; [|done].
  destruct (Ascii.eqb c ":"); [|done]; simpl.
  destruct (String.eqb n "") eqn:E; [done|]; simpl.
  destruct (in_cutset LF n); [done|]. simpl.
  intros [= <-]. by apply String.eqb_neq.
Qed.

End StringFacts.

(** ** The changelog parser against the algorithm of the specification *)

Module ParserFacts.

Import Archupd StringFacts.

Lemma in_cutset_app c s t : in_cutset c (s +:+ t) = in_cutset c s || in_cutset c t.
Proof.
  induction s as [|d s IH]; [done|]. rewrite app_cons; simpl.
  destruct (Ascii.eqb c d); [done|apply IH].
Qed.

Lemma cut_last_Some s init z : Regexp.cut_last s = Some (init, z) → s = init +:+ String z "".
Proof.
  revert init. induction s as [|c s IH]; intros init; simpl; [done|].
  destruct (Regexp.cut_last s) as [[i y]|] eqn:E.
  - intros [= <- <-]. rewrite app_cons. f_equal. by apply IH.
  - intros [= <- <-]. destruct s as [|d s]; [done|]. simpl in E.
    by destruct (Regexp.cut_last s) as [[] |].
Qed.

(** No piece of [Split] holds the separator. *)
Lemma Split_no_sep s sep : Forall (λ piece, in_cutset sep piece = false) (Split s sep).
Proof.
  induction s as [|c s IH]; simpl.
  - by constructor.
  - destruct (Ascii.eqb c sep) eqn:E.
    + by constructor.
    + destruct (Split s sep) as [|piece pieces].
      * constructor; [|constructor]. simpl. by rewrite Ascii.eqb_sym, E.
      * inversion IH as [|? ? Hp Hps]; subst. constructor; [|done].
        simpl. by rewrite Ascii.eqb_sym, E.
Qed.

Lemma chomp_app_nl line : Spec.chomp (line +:+ nl) = line.
Proof.
  induction line as [|c line IH]; [done|].
  rewrite app_cons. simpl. rewrite IH.
  destruct (line +:+ nl) eqn:E; [|done].
  by destruct line.
Qed.

(** On a line without newline, the pattern of the program and the
    header of the specification agree. *)
Lemma header_name_FindSubmatch line :
  in_cutset LF line = false →
  Spec.header_name (line +:+ nl) = Regexp.FindSubmatch line.
Proof.
  intros Hline. unfold Spec.header_name, Regexp.FindSubmatch. rewrite chomp_app_nl.
  destruct (CutPrefix line "Changelog for ") as [rest|] eqn:Hp; [|done].
  destruct (Regexp.cut_last rest) as [[name c]|] eqn:Hc; [|done].
  apply CutPrefix_Some in Hp. apply cut_last_Some in Hc. subst line rest.
  rewrite !in_cutset_app in Hline.
  apply orb_false_iff in Hline as [_ Hline]. apply orb_false_iff in Hline as [-> _].
  by rewrite andb_true_r.
Qed.

Lemma dropCR_plain line : Spec.ends_with_CR line = false → Bufio.dropCR line = line.
Proof.
  unfold Spec.ends_with_CR.
  induction line as [|c line IH]; [done|]. simpl.
  destruct line as [|d line]; simpl in *.
  - by intros ->.
  - destruct (Regexp.cut_last line) as [[i z]|]; intros H; f_equal; by apply IH.
Qed.

Lemma take_fitting_all ls : forallb Bufio.fits ls = true → Bufio.take_fitting ls = ls.
Proof.
  induction ls as [|l ls IH]; simpl; [done|].
  intros [-> ?]%andb_true_iff. f_equal. by apply IH.
Qed.

Lemma forallb_removelast {A} (f : A → bool) l :
  forallb f l = true → forallb f (removelast l) = true.
Proof.
  induction l as [|a l IH]; [done|]. simpl.
  intros [Ha Hl]%andb_true_iff. destruct l; [done|]. simpl in *.
  rewrite Ha. by apply IH.
Qed.

(** On plain texts the scanner of the program and the lines of the
    specification cut at the same places. *)
Lemma plain_lines_Scan text :
  Spec.plain_lines text = true →
  Bufio.Scan text = removelast (Split text LF) ∧
  Spec.text_lines text = (λ piece, piece +:+ nl) <$> removelast (Split text LF).
Proof.
  unfold Spec.plain_lines, Bufio.Scan, Bufio.raw_lines, Spec.text_lines.
  intros [Hall Hlast]%andb_true_iff.
  apply String.eqb_eq in Hlast. rewrite Hlast, !List.app_nil_r.
  split; [|done].
  apply forallb_removelast in Hall.
  rewrite take_fitting_all.
  - induction (removelast (Split text LF)) as [|l ls IH]; [done|].
    simpl in Hall. apply andb_true_iff in Hall as [[_ Hl]%andb_true_iff Hls].
    rewrite fmap_cons. f_equal; [|by apply IH].
    apply dropCR_plain. by destruct (Spec.ends_with_CR l).
  - clear -Hall. induction (removelast (Split text LF)) as [|l ls IH]; [done|].
    simpl in *. apply andb_true_iff in Hall as [[-> _]%andb_true_iff Hls]. by apply IH.
Qed.

(** The loop state of the program and the accumulator of the
    specification describe the same thing: before the first header the
    program has no package name and the specification no current package
    (what the program's buffer holds then is dropped at the first header);
    afterwards they agree on the package and its buffer. *)
Definition related (st : Changelogs) (acc : Spec.Accum) : Prop :=
  result st = Spec.mapping acc ∧
  (currPkg st = "" ∧ Spec.current acc = None ∨
   currPkg st ≠ "" ∧ Spec.current acc = Some (currPkg st, currLog st)).

Lemma related_flush st acc : related st acc → flush st = Spec.flush_current acc.
Proof.
  intros [Hres [[Hp Hc]|[Hp Hc]]]; unfold flush, Spec.flush_current; rewrite Hc, Hres.
  - by rewrite decide_False by (by intros ?).
  - by rewrite decide_True.
Qed.

Lemma related_step st acc line :
  in_cutset LF line = false → related st acc →
  related (scan_step st line) (Spec.accumulate acc (line +:+ nl)).
Proof.
  intros Hline Hrel. unfold scan_step, Spec.accumulate.
  rewrite (header_name_FindSubmatch line Hline).
  destruct (Regexp.FindSubmatch line) as [name|] eqn:Hm.
  - split; simpl; [by apply related_flush|].
    right. split; [|done]. by eapply FindSubmatch_nonempty.
  - destruct Hrel as [Hres [[Hp Hc]|[Hp Hc]]]; split; simpl; try done.
    + left. by rewrite Hc.
    + right. split; [done|]. by rewrite Hc.
Qed.

Lemma related_foldl ls : ∀ st acc,
  Forall (λ line, in_cutset LF line = false) ls → related st acc →
  related (foldl scan_step st ls)
          (foldl Spec.accumulate acc ((λ line, line +:+ nl) <$> ls)).
Proof.
  induction ls as [|line ls IH]; intros st acc Hls Hrel; [done|].
  inversion Hls as [|? ? Hline Hrest]; subst. simpl.
  apply IH; [done|]. by apply related_step.
Qed.

Lemma Forall_removelast {A} (P : A → Prop) l : Forall P l → Forall P (removelast l).
Proof.
  induction 1 as [|a l Ha Hl IH]; [constructor|].
  simpl. destruct l; [constructor|]. by constructor.
Qed.

(** On a plain text the program computes the mapping of the
    specification's algorithm. *)
Lemma parseChangelogs_plain text :
  Spec.plain_lines text = true → parseChangelogs text = Spec.getChangelogs text.
Proof.
  intros [HScan Hlines]%plain_lines_Scan.
  unfold parseChangelogs, Spec.getChangelogs. rewrite HScan, Hlines.
  apply related_flush, related_foldl.
  - apply Forall_removelast, Split_no_sep.
  - split; [done|]. by left.
Qed.

Lemma in_cutset_cons c d s :
  in_cutset c (String d s) = if Ascii.eqb c d then true else in_cutset c s.
Proof. reflexivity. Qed.

Lemma dropCR_no_LF line : in_cutset LF line = false → in_cutset LF (Bufio.dropCR line) = false.
Proof.
  induction line as [|c line IH]; [done|]. rewrite in_cutset_cons.
  destruct (Ascii.eqb LF c) eqn:E; [discriminate|]. intros Hline.
  destruct line as [|d line].
  - change (Bufio.dropCR (String c "")) with (if Ascii.eqb c CR then "" else String c "").
    destruct (Ascii.eqb c CR); [done|]. by rewrite in_cutset_cons, E.
  - change (Bufio.dropCR (String c (String d line)))
      with (String c (Bufio.dropCR (String d line))).
    rewrite in_cutset_cons, E. by apply IH.
Qed.

Lemma Forall_take_fitting (P : string → Prop) ls :
  Forall P ls → Forall P (Bufio.take_fitting ls).
Proof.
  induction 1 as [|l ls Hl Hls IH]; simpl; [constructor|].
  destruct (Bufio.fits l); by constructor.
Qed.

(** The scanner never delivers a line that holds a newline. *)
Lemma raw_lines_no_LF text :
  Forall (λ line, in_cutset LF line = false) (Bufio.raw_lines text).
Proof.
  unfold Bufio.raw_lines.
  pose proof (Split_no_sep text LF) as Hpieces.
  apply Forall_app. split; [by apply Forall_removelast|].
  destruct (List.last (Split text LF) "") as [|c final] eqn:Hlast; [constructor|].
  constructor; [|constructor]. rewrite <- Hlast. clear Hlast.
  induction Hpieces as [|p ps Hp Hps IH]; [done|].
  simpl. by destruct ps.
Qed.

Lemma Scan_no_LF text : Forall (λ line, in_cutset LF line = false) (Bufio.Scan text).
Proof.
  unfold Bufio.Scan. apply Forall_fmap.
  eapply Forall_impl; [apply Forall_take_fitting, raw_lines_no_LF|].
  intros line Hline. by apply dropCR_no_LF.
Qed.

(** On every text the program computes what the algorithm of the
    specification computes from the lines the scanner delivers, each
    followed by a newline. *)
Lemma parseChangelogs_lines text :
  parseChangelogs text =
    Spec.flush_current
      (foldl Spec.accumulate {| Spec.mapping := ∅; Spec.current := None |}
         ((λ line, line +:+ nl) <$> Bufio.Scan text)).
Proof.
  unfold parseChangelogs. apply related_flush, related_foldl.
  - apply Scan_no_LF.
  - split; [done|]. by left.
Qed.

(** *** Lines the scanner does not deliver *)

(** The text made of the given lines, each followed by a newline. *)
Definition join_lines (ls : list string) : string :=
  foldr (λ line text, line +:+ nl +:+ text) "" ls.

Lemma Split_line line rest :
  in_cutset LF line = false →
  Split (line +:+ nl +:+ rest) LF = line :: Split rest LF.
Proof.
  induction line as [|c line IH]; intros Hline.
  - reflexivity.
  - rewrite in_cutset_cons in Hline.
    destruct (Ascii.eqb LF c) eqn:E; [discriminate|].
    rewrite app_cons. simpl. rewrite Ascii.eqb_sym, E.
    by rewrite (IH Hline).
Qed.

Lemma Split_join_lines ls text :
  Forall (λ line, in_cutset LF line = false) ls →
  Split (join_lines ls +:+ text) LF = ls ++ Split text LF.
Proof.
  induction 1 as [|line ls Hline Hls IH]; [done|].
  simpl. rewrite !app_assoc, (Split_line _ _ Hline). by rewrite IH.
Qed.

Lemma last_app_nonempty {A} (l l' : list A) d :
  l' ≠ [] → List.last (l ++ l') d = List.last l' d.
Proof.
  intros Hne. induction l as [|a l IH]; [done|].
  simpl. rewrite IH. destruct (l ++ l') eqn:E; [|done].
  by apply app_eq_nil in E as [_ ->].
Qed.

Lemma raw_lines_join_lines ls text :
  Forall (λ line, in_cutset LF line = false) ls →
  Bufio.raw_lines (join_lines ls +:+ text) = ls ++ Bufio.raw_lines text.
Proof.
  intros Hls. unfold Bufio.raw_lines. rewrite (Split_join_lines _ _ Hls).
  rewrite removelast_app by apply Split_nonempty.
  rewrite last_app_nonempty by apply Split_nonempty.
  by rewrite <- List.app_assoc.
Qed.

Lemma take_fitting_stop ls line rest :
  Bufio.fits line = false →
  Bufio.take_fitting (ls ++ line :: rest) = Bufio.take_fitting ls.
Proof.
  intros Hfit. induction ls as [|l ls IH]; simpl.
  - by rewrite Hfit.
  - destruct (Bufio.fits l); [by rewrite IH|done].
Qed.

(** A line that does not fit the scanner ends the loop over the
    scanner: for a text of whole lines followed by such a line and
    anything else, the loop of [getChangelogs] sees the whole lines
    alone, and the mapping it has built after its last flush is the one
    for the whole lines alone. Whether [cmd.Wait()] then returns is
    another matter. *)
Theorem scan_stops_at_long_line (ls : list string) (line rest : string) :
  Forall (λ line, in_cutset LF line = false) ls →
  in_cutset LF line = false →
  Bufio.fits line = false →
  Bufio.Scan (join_lines ls +:+ line +:+ nl +:+ rest) = Bufio.Scan (join_lines ls) ∧
  parseChangelogs (join_lines ls +:+ line +:+ nl +:+ rest) = parseChangelogs (join_lines ls).
Proof.
  intros Hls Hline Hfit.
  assert (Bufio.Scan (join_lines ls +:+ line +:+ nl +:+ rest) = Bufio.Scan (join_lines ls))
    as HScan.
  { assert (Bufio.raw_lines (join_lines ls) = ls) as Hwhole.
    { rewrite <- (app_nil_r (join_lines ls)), (raw_lines_join_lines _ _ Hls).
      apply List.app_nil_r. }
    unfold Bufio.Scan. rewrite (raw_lines_join_lines _ _ Hls), Hwhole.
    unfold Bufio.raw_lines. rewrite (Split_line _ _ Hline).
    pose proof (Split_nonempty rest LF) as Hne.
    destruct (Split rest LF) as [|p ps] eqn:E; [done|].
    change (removelast (line :: p :: ps)) with (line :: removelast (p :: ps)).
    by rewrite <- app_comm_cons, take_fitting_stop. }
  split; [done|]. unfold parseChangelogs. by rewrite HScan.
Qed.

(** A line of 65536 bytes. *)
Definition long_line : string := N.iter 65536 (String "x"%char) "".

Lemma scan_stops_at_long_line_witness :
  parseChangelogs
    (join_lines ["Changelog for foo:"; "line1"] +:+ long_line +:+ nl +:+
     join_lines ["Changelog for bar:"; "line2"]) =
  parseChangelogs (join_lines ["Changelog for foo:"; "line1"]).
Proof.
  apply (scan_stops_at_long_line ["Changelog for foo:"; "line1"] long_line).
  - repeat constructor.
  - by vm_compute.
  - by vm_compute.
Defined.

(** A last line without newline is delivered like the others, so the
    program ends it with a newline that the text does not have. *)
Lemma unterminated_last_line :
  parseChangelogs ("Changelog for foo:" +:+ nl +:+ "line1") = {["foo" := "line1" +:+ nl]} ∧
  Spec.getChangelogs ("Changelog for foo:" +:+ nl +:+ "line1") = {["foo" := "line1"]}.
Proof. split; by vm_compute. Qed.

(** *** The header pattern *)

(** The header line of a package. *)
Definition header (name : string) : string := "Changelog for " +:+ name +:+ ":".

Lemma cut_last_app s z : Regexp.cut_last (s +:+ String z "") = Some (s, z).
Proof.
  induction s as [|c s IH]; [done|].
  rewrite app_cons. simpl. by rewrite IH.
Qed.

(** The pattern matches exactly the header lines of packages whose name
    is not empty and holds no newline, and gives back the name; the name
    may hold colons and blanks, since the pattern takes all bytes up to
    the last colon. *)
Theorem FindSubmatch_header (line name : string) :
  Regexp.FindSubmatch line = Some name ↔
  line = header name ∧ name ≠ "" ∧ in_cutset LF name = false.
Proof.
  unfold Regexp.FindSubmatch, header. split.
  - destruct (CutPrefix line "Changelog for ") as [rest|] eqn:Hp; [|done].
    destruct (Regexp.cut_last rest) as [[n c]|] eqn:Hc; [|done].
    destruct (Ascii.eqb c ":") eqn:Ec; [|done]. simpl.
    destruct (String.eqb n "") eqn:En; [done|]. simpl.
    destruct (in_cutset LF n) eqn:El; [done|]. simpl. intros [= <-].
    apply CutPrefix_Some in Hp. apply cut_last_Some in Hc.
    apply Ascii.eqb_eq in Ec. apply String.eqb_neq in En. by subst.
  - intros (-> & Hne & Hlf). rewrite CutPrefix_app, cut_last_app. simpl.
    apply String.eqb_neq in Hne. by rewrite Hne, Hlf.
Qed.

Lemma FindSubmatch_header_witness :
  Regexp.FindSubmatch "Changelog for lib:x y:" = Some "lib:x y".
Proof.
  apply (FindSubmatch_header "Changelog for lib:x y:" "lib:x y").
  split; [reflexivity|]. split; [discriminate|reflexivity].
Defined.

(** *** Which packages the snapshot holds *)

Lemma flush_header st name :
  name ≠ "" →
  flush {| result := flush st; currPkg := name; currLog := "" |} = <[name := ""]> (flush st).
Proof. intros Hne. unfold flush at 1. simpl. by rewrite decide_True. Qed.

Lemma flush_lookup_append st line name :
  is_Some (flush {| result := result st; currPkg := currPkg st;
                    currLog := currLog st +:+ line +:+ nl |} !! name) ↔
  is_Some (flush st !! name).
Proof.
  unfold flush. simpl. destruct (decide (currPkg st ≠ "")); [|done].
  destruct (decide (currPkg st = name)) as [->|Hne].
  - rewrite !lookup_insert_eq. split; eauto.
  - by rewrite !lookup_insert_ne.
Qed.

Lemma foldl_scan_step_keys ls : ∀ st name,
  is_Some (flush (foldl scan_step st ls) !! name) ↔
  is_Some (flush st !! name) ∨
  ∃ line, line ∈ ls ∧ Regexp.FindSubmatch line = Some name.
Proof.
  induction ls as [|line ls IH]; intros st name; simpl.
  - split; [by left|]. intros [?|(? & Hin & _)]; [done|]. by apply elem_of_nil in Hin.
  - rewrite IH. unfold scan_step.
    destruct (Regexp.FindSubmatch line) as [name'|] eqn:Hm.
    + rewrite flush_header by (by eapply FindSubmatch_nonempty).
      destruct (decide (name' = name)) as [->|Hne].
      * rewrite lookup_insert_eq. split.
        -- intros _. right. exists line. split; [by left|done].
        -- intros _. left. eauto.
      * rewrite lookup_insert_ne by done. split.
        -- intros [?|(l & Hin & Hl)]; [by left|]. right. exists l. split; [by right|done].
        -- intros [?|(l & Hin & Hl)]; [by left|].
           apply elem_of_cons in Hin as [->|Hin]; [congruence|].
           right. by exists l.
    + rewrite flush_lookup_append. split.
      * intros [?|(l & Hin & Hl)]; [by left|]. right. exists l. split; [by right|done].
      * intros [?|(l & Hin & Hl)]; [by left|].
        apply elem_of_cons in Hin as [->|Hin]; [congruence|].
        right. by exists l.
Qed.

(** The snapshot holds a package exactly when the scanner delivers the
    header line of that package, whether or not changelog lines follow
    it; so it never holds the empty name, nor a name with a newline. *)
Theorem snapshot_keys (text name : string) :
  (name ∈ dom (parseChangelogs text) ↔
     name ≠ "" ∧ in_cutset LF name = false ∧ header name ∈ Bufio.Scan text) ∧
  "" ∉ dom (parseChangelogs text).
Proof.
  assert (∀ n, n ∈ dom (parseChangelogs text) ↔
               n ≠ "" ∧ in_cutset LF n = false ∧ header n ∈ Bufio.Scan text) as Hkeys.
  { intros n. rewrite elem_of_dom. unfold parseChangelogs.
    rewrite foldl_scan_step_keys.
    change (flush {| result := ∅; currPkg := ""; currLog := "" |})
      with (∅ : gmap string string).
    rewrite lookup_empty. split.
    - intros [[? [=]]|(line & Hin & Hm)].
      apply FindSubmatch_header in Hm as (-> & ? & ?). done.
    - intros (Hne & Hlf & Hin). right. exists (header n).
      split; [done|]. by apply FindSubmatch_header. }
  split; [apply Hkeys|]. intros H%Hkeys. by destruct H.
Qed.

(** *** Writing a snapshot out and parsing it again *)

(** A line the scanner hands on as it is. *)
Definition plain (line : string) : Prop :=
  in_cutset LF line = false ∧ Bufio.fits line = true ∧ Spec.ends_with_CR line = false.

(** A package with the lines of its changelog: the name can be put in a
    header line, and no line of the changelog reads like a header. *)
Definition good_block (block : string * list string) : Prop :=
  block.1 ≠ "" ∧ in_cutset LF block.1 = false ∧ Bufio.fits (header block.1) = true ∧
  Forall (λ line, plain line ∧ Regexp.FindSubmatch line = None) block.2.

Definition block_lines (block : string * list string) : list string :=
  header block.1 :: block.2.

(** The output of the changelog query for the given packages. *)
Definition render (blocks : list (string * list string)) : string :=
  join_lines (concat (block_lines <$> blocks)).

(** The mapping that holds each package with its changelog text; a
    package listed twice keeps the later text. *)
Definition as_map (blocks : list (string * list string)) : gmap string string :=
  foldl (λ m block, <[block.1 := join_lines block.2]> m) ∅ blocks.

Lemma raw_lines_whole ls :
  Forall (λ line, in_cutset LF line = false) ls → Bufio.raw_lines (join_lines ls) = ls.
Proof.
  intros Hls. rewrite <- (app_nil_r (join_lines ls)), (raw_lines_join_lines _ _ Hls).
  apply List.app_nil_r.
Qed.

Lemma Scan_join_lines ls : Forall plain ls → Bufio.Scan (join_lines ls) = ls.
Proof.
  intros Hls. unfold Bufio.Scan. rewrite raw_lines_whole.
  - rewrite take_fitting_all.
    + induction Hls as [|l ls (_ & _ & Hcr) _ IH]; [done|].
      rewrite fmap_cons, IH. f_equal. by apply dropCR_plain.
    + induction Hls as [|l ls (_ & Hfit & _) _ IH]; [done|]. simpl. by rewrite Hfit.
  - eapply Forall_impl; [exact Hls|]. by intros l (? & _).
Qed.

Lemma header_plain name :
  in_cutset LF name = false → Bufio.fits (header name) = true → plain (header name).
Proof.
  intros Hlf Hfit. split; [|split; [done|]].
  - unfold header. by rewrite !in_cutset_app, Hlf.
  - unfold Spec.ends_with_CR, header. rewrite <- app_assoc. by rewrite cut_last_app.
Qed.

Lemma foldl_scan_step_body body : ∀ res pkg log,
  Forall (λ line, Regexp.FindSubmatch line = None) body →
  foldl scan_step {| result := res; currPkg := pkg; currLog := log |} body =
    {| result := res; currPkg := pkg; currLog := log +:+ join_lines body |}.
Proof.
  induction body as [|line body IH]; intros res pkg log Hbody; simpl.
  - by rewrite app_nil_r.
  - inversion Hbody as [|? ? Hline Hrest]; subst.
    unfold scan_step at 2. rewrite Hline. simpl. rewrite (IH _ _ _ Hrest).
    by rewrite !app_assoc.
Qed.

(** The loop state after each block: the block before is flushed, the
    block itself is being accumulated. *)
Definition after_block (st : Changelogs) (block : string * list string) : Changelogs :=
  {| result := flush st; currPkg := block.1; currLog := join_lines block.2 |}.

Lemma foldl_scan_step_blocks blocks : ∀ st,
  Forall good_block blocks →
  foldl scan_step st (concat (block_lines <$> blocks)) = foldl after_block st blocks.
Proof.
  induction blocks as [|block blocks IH]; intros st Hblocks; [done|].
  inversion Hblocks as [|? ? (Hne & Hlf & Hfit & Hbody) Hrest]; subst.
  rewrite fmap_cons. simpl. rewrite foldl_app, <- (IH _ Hrest). f_equal.
  unfold scan_step at 2.
  rewrite (proj2 (FindSubmatch_header (header block.1) block.1)) by done.
  rewrite foldl_scan_step_body.
  - reflexivity.
  - eapply Forall_impl; [exact Hbody|]. by intros l [_ ?].
Qed.

Lemma flush_after_blocks blocks : ∀ st,
  Forall good_block blocks →
  flush (foldl after_block st blocks) =
    foldl (λ m block, <[block.1 := join_lines block.2]> m) (flush st) blocks.
Proof.
  induction blocks as [|block blocks IH]; intros st Hblocks; [done|].
  inversion Hblocks as [|? ? (Hne & _) Hrest]; subst. simpl.
  rewrite (IH _ Hrest). f_equal. unfold flush at 1, after_block. simpl.
  by rewrite decide_True.
Qed.

(** Parsing what the changelog query prints for a list of packages gives
    back the mapping of these packages to their changelog texts. *)
Theorem parse_render (blocks : list (string * list string)) :
  Forall good_block blocks →
  parseChangelogs (render blocks) = as_map blocks.
Proof.
  intros Hblocks. unfold parseChangelogs, render, as_map.
  rewrite Scan_join_lines.
  - rewrite (foldl_scan_step_blocks _ _ Hblocks). by rewrite (flush_after_blocks _ _ Hblocks).
  - apply Forall_concat, Forall_fmap. eapply Forall_impl; [exact Hblocks|].
    intros block (Hne & Hlf & Hfit & Hbody). simpl. constructor.
    + by apply header_plain.
    + eapply Forall_impl; [exact Hbody|]. by intros l [? _].
Qed.

Lemma parse_render_witness :
  parseChangelogs (render [("foo", ["1.1: fix"; ""; "1.0: first"]); ("bar", [])]) =
  as_map [("foo", ["1.1: fix"; ""; "1.0: first"]); ("bar", [])].
Proof.
  apply (parse_render [("foo", ["1.1: fix"; ""; "1.0: first"]); ("bar", [])]).
  repeat constructor; try discriminate; by vm_compute.
Defined.

(** *** Lists of names, one per line *)

Lemma TrimRight_cons c s cutset :
  TrimRight (String c s) cutset =
    match TrimRight s cutset with
    | EmptyString => if in_cutset c cutset then EmptyString else String c EmptyString
    | r => String c r
    end.
Proof. reflexivity. Qed.

Lemma TrimRight_line line :
  in_cutset LF line = false → TrimRight (line +:+ nl) nl = line.
Proof.
  induction line as [|c line IH]; intros Hline; [done|].
  rewrite in_cutset_cons in Hline.
  destruct (Ascii.eqb LF c) eqn:E; [discriminate|].
  rewrite app_cons, TrimRight_cons, (IH Hline).
  destruct line; [|done]. unfold nl. rewrite in_cutset_cons.
  rewrite Ascii.eqb_sym, E. done.
Qed.

Lemma TrimRight_app s t cutset :
  TrimRight t cutset ≠ "" → TrimRight (s +:+ t) cutset = s +:+ TrimRight t cutset.
Proof.
  intros Hne. induction s as [|c s IH]; [done|].
  rewrite !app_cons, TrimRight_cons, IH.
  destruct s; [|done]. change ("" +:+ TrimRight t cutset) with (TrimRight t cutset).
  by destruct (TrimRight t cutset).
Qed.

Lemma Split_no_LF line : in_cutset LF line = false → Split line LF = [line].
Proof.
  intros Hline. rewrite <- (app_nil_r line) at 1.
  induction line as [|c line IH]; [done|].
  rewrite in_cutset_cons in Hline.
  destruct (Ascii.eqb LF c) eqn:E; [discriminate|].
  rewrite app_cons. simpl. rewrite Ascii.eqb_sym, E. by rewrite (IH Hline).
Qed.

(** Names that are not empty and hold no newline, written one per line,
    are read back by trimming the newlines at the end and splitting at
    newlines. *)
Lemma Split_TrimRight_join_lines names :
  names ≠ [] →
  Forall (λ name, name ≠ "" ∧ in_cutset LF name = false) names →
  Split (TrimRight (join_lines names) nl) LF = names.
Proof.
  intros Hne Hnames.
  induction Hnames as [|name names [Hname Hlf] Hrest IH]; [done|]. clear Hne.
  destruct names as [|name' names].
  - simpl. rewrite app_nil_r, (TrimRight_line _ Hlf). by apply Split_no_LF.
  - specialize (IH ltac:(done)).
    change (join_lines (name :: name' :: names))
      with (name +:+ nl +:+ join_lines (name' :: names)).
    assert (TrimRight (join_lines (name' :: names)) nl ≠ "") as Hkeep.
    { intros Hempty. rewrite Hempty in IH. simpl in IH.
      injection IH as <- _. inversion Hrest as [|? ? [Hn _] _]. done. }
    rewrite <- app_assoc, (TrimRight_app _ _ _ Hkeep), app_assoc.
    by rewrite (Split_line _ _ Hlf), IH.
Qed.

End ParserFacts.

(** ** Commands, differ and orchestration *)

Module ArchupdFacts.

Import Archupd.

Section Facts.

Variable system : list (list string) → list string → gmap string string → CmdOutcome.
Variable range_order : gmap string string → list (string * string).
Hypothesis range_order_perm : ∀ m, range_order m ≡ₚ map_to_list m.
Variable diff_err : string → string → option error.

Local Abbreviation Run := (Archupd.Run system).
Local Abbreviation RunCapture := (Archupd.RunCapture system).
Local Abbreviation pacman := (Archupd.pacman system).
Local Abbreviation removeSuperfluousPackages := (Archupd.removeSuperfluousPackages system).
Local Abbreviation getChangelogs := (Archupd.getChangelogs system).
Local Abbreviation diff_step := (Archupd.diff_step diff_err).
Local Abbreviation diff_loop := (Archupd.diff_loop diff_err).
Local Abbreviation diff_output := (Archupd.diff_output diff_err).
Local Abbreviation diff_outputs := (Archupd.diff_outputs diff_err).
Local Abbreviation showChangelogDiff := (Archupd.showChangelogDiff range_order diff_err).
Local Abbreviation after_tail := (Archupd.after_tail system range_order diff_err).
Local Abbreviation main := (Archupd.main system range_order diff_err).

(** *** The orphan query and the removal *)

Lemma removeSuperfluousPackages_exit (w : World) (code : Z) :
  start_err (system (execs w) orphan_query (files w)) = None →
  wait_err (system (execs w) orphan_query (files w)) = Some (ExitError code) →
  removeSuperfluousPackages w =
    let w1 := ran w orphan_query (files_after (system (execs w) orphan_query (files w))) in
    if code =? 1 then Ret None (printed w1 (Text (nl +:+ "No superfluous packages." +:+ nl)))
    else Ret (Some (ExitError code)) w1.
Proof.
  intros Hs Hw. unfold Archupd.removeSuperfluousPackages, mbind, prog_bind, Archupd.RunCapture.
  fold orphan_query. rewrite Hs, Hw. simpl.
  destruct (code =? 1); reflexivity.
Qed.

(** C6. Whatever the orphan query printed (so also when it printed
    nothing): when it ends with exit code 1, [removeSuperfluousPackages]
    reports that there are no superfluous packages and returns no error,
    and the query is the only command it ran; when it ends with any other
    exit code, that error is returned to the caller, and again no removal
    is run. *)
Theorem orphan_exit_code_disambiguation (w : World) (code : Z) :
  start_err (system (execs w) orphan_query (files w)) = None →
  wait_err (system (execs w) orphan_query (files w)) = Some (ExitError code) →
  (code = 1 →
     ∃ w', removeSuperfluousPackages w = Ret None w' ∧
           execs w' = execs w ++ [orphan_query] ∧
           stdout w' = stdout w ++ [Text (nl +:+ "No superfluous packages." +:+ nl)]) ∧
  (code ≠ 1 →
     ∃ w', removeSuperfluousPackages w = Ret (Some (ExitError code)) w' ∧
           execs w' = execs w ++ [orphan_query] ∧
           stdout w' = stdout w).
Proof.
  intros Hs Hw. rewrite (removeSuperfluousPackages_exit w code Hs Hw).
  split; intros Hc.
  - subst code. simpl. eexists. split; [reflexivity|]. split; reflexivity.
  - apply Z.eqb_neq in Hc. rewrite Hc. simpl.
    eexists. split; [reflexivity|]. split; reflexivity.
Qed.

Lemma removeSuperfluousPackages_success (w : World) :
  start_err (system (execs w) orphan_query (files w)) = None →
  wait_err (system (execs w) orphan_query (files w)) = None →
  removeSuperfluousPackages w =
    let o := system (execs w) orphan_query (files w) in
    Run (["sudo"; "pacman"; "-Rs"] ++ Split (TrimRight (cmd_stdout o) nl) LF)
      (printed (ran w orphan_query (files_after o))
         (Text (nl +:+ "Superfluous packages can be removed:" +:+ nl))).
Proof.
  intros Hs Hw. unfold Archupd.removeSuperfluousPackages, mbind, prog_bind, Archupd.RunCapture.
  fold orphan_query. rewrite Hs, Hw. simpl.
  pose proof (StringFacts.Split_nonempty
    (TrimRight (cmd_stdout (system (execs w) orphan_query (files w))) nl) LF) as Hne.
  destruct (Split _ LF) as [|p ps]; [done|]. reflexivity.
Qed.

(** C10. The list of packages is never empty, so the guard
    [len(pkgs) == 0] never holds; when the orphan query succeeds and
    prints nothing, the list is the single empty string, and the removal
    command is run with that one empty argument, after the line that
    announces packages to remove. *)
Theorem empty_orphan_list_guard_unreachable (w : World) :
  start_err (system (execs w) orphan_query (files w)) = None →
  wait_err (system (execs w) orphan_query (files w)) = None →
  cmd_stdout (system (execs w) orphan_query (files w)) = "" →
  (∀ output, (length (Split (TrimRight output nl) LF) =? 0)%nat = false) ∧
  Split (TrimRight "" nl) LF = [""] ∧
  execs (world_of (removeSuperfluousPackages w)) =
    execs w ++ [orphan_query; ["sudo"; "pacman"; "-Rs"; ""]] ∧
  stdout (world_of (removeSuperfluousPackages w)) =
    stdout w ++ [Text (nl +:+ "Superfluous packages can be removed:" +:+ nl)].
Proof.
  intros Hs Hw Ho. split; [|split; [reflexivity|]].
  - intros output. pose proof (StringFacts.Split_nonempty (TrimRight output nl) LF) as Hne.
    destruct (Split _ LF); [done|reflexivity].
  - rewrite (removeSuperfluousPackages_success w Hs Hw). cbv zeta. rewrite Ho.
    unfold Archupd.Run. simpl.
    split.
    + destruct (start_err (system (execs w ++ _) _ _)); simpl;
        by rewrite <- app_assoc.
    + by destruct (start_err (system (execs w ++ _) _ _)).
Qed.

(** *** The changelog snapshot *)

Lemma getChangelogs_success (w : World) :
  start_err (system (execs w) changelog_query (files w)) = None →
  wait_err (system (execs w) changelog_query (files w)) = None →
  getChangelogs w =
    Ret (inl (parseChangelogs (cmd_stdout (system (execs w) changelog_query (files w)))))
        (ran w changelog_query (files_after (system (execs w) changelog_query (files w)))).
Proof.
  intros Hs Hw. unfold Archupd.getChangelogs. fold changelog_query.
  by rewrite Hs, Hw.
Qed.

(** C1, as amended. When the changelog query runs without error and
    every line of its output fits the scanner, [getChangelogs] returns
    the mapping that the algorithm of the specification computes from
    the lines of the output, each taken without its newline and without
    one carriage return before it, a last line that no newline ends
    included, and each followed by a newline; when the output is made of
    newline-terminated lines that do not end in a carriage return, this
    is the mapping the algorithm computes from the output itself; and the
    output of the scenario is parsed to the mapping of the scenario. *)
Theorem getChangelogs_refines_spec (w : World) :
  start_err (system (execs w) changelog_query (files w)) = None →
  wait_err (system (execs w) changelog_query (files w)) = None →
  forallb Bufio.fits
    (Bufio.raw_lines (cmd_stdout (system (execs w) changelog_query (files w)))) = true →
  ∃ m,
    getChangelogs w =
      Ret (inl m)
          (ran w changelog_query (files_after (system (execs w) changelog_query (files w)))) ∧
    m = Spec.flush_current
          (foldl Spec.accumulate {| Spec.mapping := ∅; Spec.current := None |}
             ((λ line, Bufio.dropCR line +:+ nl) <$>
                Bufio.raw_lines (cmd_stdout (system (execs w) changelog_query (files w))))) ∧
    (Spec.plain_lines (cmd_stdout (system (execs w) changelog_query (files w))) = true →
       m = Spec.getChangelogs (cmd_stdout (system (execs w) changelog_query (files w)))) ∧
    parseChangelogs scenario_output =
      <["bar" := ("line2" +:+ nl) +:+ "line3" +:+ nl]> (<["foo" := "line1" +:+ nl]> ∅).
Proof.
  intros Hs Hw Hfit. eexists. split; [apply (getChangelogs_success w Hs Hw)|].
  split; [|split; [apply ParserFacts.parseChangelogs_plain|by vm_compute]].
  rewrite ParserFacts.parseChangelogs_lines. unfold Bufio.Scan.
  rewrite (ParserFacts.take_fitting_all _ Hfit). by rewrite <- list_fmap_compose.
Qed.

(** *** The log monitor *)

Lemma skip_app (old appended : string) :
  skip (String.length old) (old +:+ appended) = appended.
Proof. induction old as [|c old IH]; [done|]. by rewrite StringFacts.app_cons. Qed.


(** *** The changelog differ *)

Lemma diff_step_spec pre foundAny entry w :
  diff_step pre foundAny entry w =
    Ret (foundAny || changed pre entry)
        {| files := files w; stdout := stdout w ++ diff_output pre foundAny entry;
           execs := execs w |}.
Proof.
  destruct entry as [pkg logPost], w as [fs out ex].
  unfold Archupd.diff_step, Archupd.diff_output, changed; simpl.
  destruct (pre !! pkg) as [logPre|]; simpl.
  - destruct (decide (logPre ≠ logPost)) as [Hne|Heq].
    + rewrite bool_decide_eq_true_2 by done. rewrite orb_true_r.
      unfold mbind, prog_bind, Println, PrintlnErr, put, mret, prog_ret; simpl.
      destruct foundAny, (diff_err logPre logPost); simpl;
        rewrite <- ?List.app_assoc; reflexivity.
    + rewrite bool_decide_eq_false_2 by done.
      rewrite orb_false_r, List.app_nil_r. reflexivity.
  - rewrite orb_false_r, List.app_nil_r. reflexivity.
Qed.

Lemma diff_loop_spec pre entries : ∀ foundAny w,
  diff_loop pre foundAny entries w =
    Ret (foundAny || existsb (changed pre) entries)
        {| files := files w; stdout := stdout w ++ diff_outputs pre foundAny entries;
           execs := execs w |}.
Proof.
  induction entries as [|entry rest IH]; intros foundAny w; simpl.
  - rewrite orb_false_r, List.app_nil_r. by destruct w.
  - unfold mbind, prog_bind. rewrite diff_step_spec, IH. simpl.
    by rewrite orb_assoc, List.app_assoc.
Qed.

Lemma diff_output_DiffText pre foundAny entry n1 n2 a b :
  DiffText n1 n2 a b ∈ diff_output pre foundAny entry ↔
  pre !! entry.1 = Some a ∧ a ≠ b ∧ b = entry.2 ∧
  n1 = entry.1 +:+ " (before)" ∧ n2 = entry.1 +:+ " (after)".
Proof.
  unfold Archupd.diff_output.
  destruct (pre !! entry.1) as [logPre|]; [|set_solver].
  destruct (decide (logPre ≠ entry.2)) as [Hne|Heq].
  - rewrite !elem_of_app, list_elem_of_singleton. split.
    + intros [H|[H|H]].
      * destruct foundAny; set_solver.
      * injection H as -> -> -> ->. done.
      * destruct (diff_err logPre entry.2); set_solver.
    + intros (Ha & _ & -> & -> & ->). injection Ha as ->. auto.
  - split; [set_solver|]. intros (Ha & Hab & -> & _). injection Ha as ->. done.
Qed.

Lemma diff_outputs_DiffText pre entries : ∀ foundAny n1 n2 a b,
  DiffText n1 n2 a b ∈ diff_outputs pre foundAny entries ↔
  ∃ pkg, (pkg, b) ∈ entries ∧ pre !! pkg = Some a ∧ a ≠ b ∧
         n1 = pkg +:+ " (before)" ∧ n2 = pkg +:+ " (after)".
Proof.
  induction entries as [|[pkg logPost] rest IH]; intros foundAny n1 n2 a b; simpl.
  - split; [set_solver|]. intros (? & H & _). set_solver.
  - rewrite elem_of_app, diff_output_DiffText, IH; simpl. split.
    + intros [(Ha & Hab & -> & -> & ->)|(p & Hin & H)].
      * exists pkg. split; [left|]; done.
      * exists p. split; [by right|done].
    + intros (p & Hin & Ha & Hab & -> & ->).
      apply elem_of_cons in Hin as [[= -> ->]|Hin]; [by left|].
      right. by exists p.
Qed.

Lemma diff_outputs_Text pre entries : ∀ foundAny s,
  Text s ∈ diff_outputs pre foundAny entries →
  s = (nl +:+ "Changelog diffs:" +:+ nl) +:+ nl.
Proof.
  induction entries as [|entry rest IH]; intros foundAny s; simpl; [set_solver|].
  rewrite elem_of_app. intros [H|H]; [|by eapply IH].
  unfold Archupd.diff_output in H.
  destruct (pre !! entry.1) as [logPre|]; [|set_solver].
  destruct (decide (logPre ≠ entry.2)); [|set_solver].
  rewrite !elem_of_app in H. destruct H as [H|[H|H]].
  - destruct foundAny; set_solver.
  - set_solver.
  - destruct (diff_err logPre entry.2); set_solver.
Qed.

Lemma rendered_diff_outputs pre post foundAny pkg :
  rendered pkg (diff_outputs pre foundAny (range_order post)) ↔
  ∃ a b, pre !! pkg = Some a ∧ post !! pkg = Some b ∧ a ≠ b.
Proof.
  unfold rendered. split.
  - intros (a & b & H). apply diff_outputs_DiffText in H as (p & Hin & Ha & Hab & Hp & _).
    apply StringFacts.app_inv_tail in Hp as <-.
    rewrite range_order_perm in Hin. apply elem_of_map_to_list in Hin.
    by exists a, b.
  - intros (a & b & Ha & Hb & Hab). exists a, b.
    apply diff_outputs_DiffText. exists pkg.
    split; [|done]. rewrite range_order_perm. by apply elem_of_map_to_list.
Qed.

Lemma changed_rendered pre post :
  existsb (changed pre) (range_order post) = true ↔
  ∃ pkg, rendered pkg (diff_outputs pre false (range_order post)).
Proof.
  rewrite existsb_exists. split.
  - intros ([pkg b] & Hin & Hch). exists pkg. apply rendered_diff_outputs.
    unfold changed in Hch; simpl in Hch.
    destruct (pre !! pkg) as [a|] eqn:Ha; [|done].
    apply bool_decide_eq_true in Hch. exists a, b. split; [done|]. split; [|done].
    apply list_elem_of_In in Hin. rewrite range_order_perm in Hin.
    by apply elem_of_map_to_list in Hin.
  - intros (pkg & (a & b & Ha & Hb & Hab)%rendered_diff_outputs).
    exists (pkg, b). split.
    + apply list_elem_of_In. rewrite range_order_perm. by apply elem_of_map_to_list.
    + unfold changed; simpl. rewrite Ha. by apply bool_decide_eq_true.
Qed.

(** What [showChangelogDiff] prints. *)
Definition diff_report (pre post : gmap string string) : list Output :=
  diff_outputs pre false (range_order post) ++
  if existsb (changed pre) (range_order post) then []
  else [Text ((nl +:+ "No updated changelogs.") +:+ nl)].

Lemma showChangelogDiff_spec pre post w :
  showChangelogDiff pre post w =
    Ret () {| files := files w; stdout := stdout w ++ diff_report pre post;
              execs := execs w |}.
Proof.
  unfold Archupd.showChangelogDiff, mbind, prog_bind, diff_report.
  rewrite diff_loop_spec. simpl.
  destruct (existsb _ _); simpl.
  - by rewrite List.app_nil_r.
  - unfold Println, put; simpl. by rewrite List.app_assoc.
Qed.

Lemma rendered_diff_report pre post pkg :
  rendered pkg (diff_report pre post) ↔
  ∃ a b, pre !! pkg = Some a ∧ post !! pkg = Some b ∧ a ≠ b.
Proof.
  rewrite <- (rendered_diff_outputs pre post false pkg).
  unfold rendered, diff_report. split.
  - intros (a & b & H). exists a, b. apply elem_of_app in H as [H|H]; [done|].
    destruct (existsb _ _); set_solver.
  - intros (a & b & H). exists a, b. apply elem_of_app. by left.
Qed.

(** C7. [showChangelogDiff] only prints, and only the keys of [post]
    are considered: a package that is no key of [post] gets no
    rendering. For a package that is a key of [post], no rendering is
    printed exactly when the package is absent from [pre] or has the
    same text in both maps; a rendering is printed for a package exactly
    when both maps hold it with different texts; and the line "No
    updated changelogs." is printed exactly when no package got a
    rendering. *)
Theorem changelog_diff_rendering (pre post : gmap string string) (pkg : string) (w : World) :
  ∃ out,
    showChangelogDiff pre post w =
      Ret () {| files := files w; stdout := stdout w ++ out; execs := execs w |} ∧
    (is_Some (post !! pkg) →
       (¬ rendered pkg out ↔ pre !! pkg = None ∨ pre !! pkg = post !! pkg)) ∧
    (post !! pkg = None → ¬ rendered pkg out) ∧
    (rendered pkg out ↔
       ∃ a b, pre !! pkg = Some a ∧ post !! pkg = Some b ∧ a ≠ b) ∧
    ((∀ p, ¬ rendered p out) ↔
       Text ((nl +:+ "No updated changelogs.") +:+ nl) ∈ out).
Proof.
  exists (diff_report pre post). split; [apply showChangelogDiff_spec|].
  split; [|split; [|split]].
  - intros [b Hb]. rewrite rendered_diff_report, Hb. split.
    + intros Hno. destruct (pre !! pkg) as [a|] eqn:Ha; [|by left].
      right. destruct (decide (a = b)) as [->|Hne]; [done|].
      exfalso. apply Hno. by exists a, b.
    + intros [Hnone|Heq] (a & b' & Ha & Hb' & Hab); simplify_eq.
  - intros Hnone (a & b & _ & Hb & _)%rendered_diff_report. congruence.
  - apply rendered_diff_report.
  - unfold diff_report at 2. rewrite elem_of_app.
    destruct (existsb (changed pre) (range_order post)) eqn:E.
    + apply changed_rendered in E as [p Hp]. split.
      * intros Hno. exfalso. apply (Hno p).
        destruct Hp as (a & b & Hp). exists a, b.
        unfold diff_report. apply elem_of_app. by left.
      * intros [H|H]; [|set_solver].
        by apply diff_outputs_Text in H.
    + split; [intros _; right; set_solver|].
      intros _ p Hp. apply rendered_diff_report in Hp.
      assert (existsb (changed pre) (range_order post) = true) as E'; [|congruence].
      apply changed_rendered. exists p. by apply rendered_diff_outputs.
Qed.

(** *** The orchestration *)

Local Abbreviation prelude := (Archupd.prelude system).

Lemma emit_nil w : emit w [] = w.
Proof. destruct w. unfold emit; simpl. by rewrite List.app_nil_r. Qed.

Lemma emit_emit w o1 o2 : emit (emit w o1) o2 = emit w (o1 ++ o2).
Proof. unfold emit; simpl. by rewrite List.app_assoc. Qed.

Lemma put_emit o w : put o w = Ret () (emit w [o]).
Proof. reflexivity. Qed.

Lemma Println_emit s w : Println s w = Ret () (emit w [Text (s +:+ nl)]).
Proof. reflexivity. Qed.

Lemma drain_spec news w : drain news w = Ret () (emit w (news_output news)).
Proof.
  revert w. induction news as [|s rest IH]; intros w; simpl.
  - by rewrite emit_nil.
  - unfold mbind, prog_bind. rewrite Println_emit, IH. by rewrite emit_emit.
Qed.

(** What the loop over the log tail prints when it starts with the flag
    [found]. *)
Definition tail_output (found : bool) (ls : list string) : list Output :=
  if found then alpm_lines ls else alpm_output ls.

Lemma tail_loop_spec ls : ∀ found w,
  tail_loop found ls w = Ret (found || found_marker ls) (emit w (tail_output found ls)).
Proof.
  unfold tail_output, alpm_output, alpm_lines, found_marker.
  induction ls as [|line rest IH]; intros found w; simpl.
  - rewrite orb_false_r. destruct found; by rewrite emit_nil.
  - unfold mbind, prog_bind, tail_step.
    destruct (Contains line PACMAN_LOG_ALPM_MARKER) eqn:E; simpl.
    + rewrite filter_cons_True by (by rewrite E). rewrite orb_true_r.
      destruct found; simpl; rewrite IH; unfold emit; simpl;
        rewrite <- ?List.app_assoc; reflexivity.
    + rewrite filter_cons_False by (rewrite E; intros []). apply IH.
Qed.

Lemma main_prelude arg0 news w :
  main false arg0 news w =
    match prelude w with
    | Exit code w' => Exit code w'
    | Ret (pre, ls) w4 =>
        (after_tail (found_marker ls) pre;; put (Text nl);; drain news)
          (emit w4 (alpm_output ls))
    end.
Proof.
  unfold Archupd.main, Archupd.prelude, mbind, prog_bind.
  destruct (Archupd.pacman system ["-Sc"; "--noconfirm"] w) as [err w1|]; [|done].
  destruct (exitOnError err w1) as [[] w1'|]; [|done].
  destruct (Archupd.getChangelogs system w1') as [r w2|]; [|done].
  destruct (exitOnFailure r w2) as [pre w2'|]; [|done].
  destruct (newLogMonitor PACMAN_LOG_PATH w2') as [r' w3|]; [|done].
  destruct (exitOnFailure r' w3) as [logMon w3'|]; [|done].
  destruct (Archupd.pacman system ["-Syu"; "--noconfirm"] w3') as [err' w4|]; [|done].
  destruct (exitOnError err' w4) as [[] w4'|]; [|done].
  destruct (lines logMon w4') as [ls w5|]; [|done].
  simpl. rewrite tail_loop_spec. reflexivity.
Qed.

Lemma getChangelogs_execs w :
  ∃ r w', getChangelogs w = Ret r w' ∧
          execs w' = execs w ++ [changelog_query] ∧ stdout w' = stdout w.
Proof.
  unfold Archupd.getChangelogs.
  destruct (start_err _); [eauto|]. destruct (wait_err _); eauto.
Qed.

Lemma Run_execs argv w :
  ∃ err w', Run argv w = Ret err w' ∧
            execs w' = execs w ++ [argv] ∧ stdout w' = stdout w.
Proof. unfold Archupd.Run. destruct (start_err _); eauto. Qed.

Lemma removeSuperfluousPackages_execs w :
  ∃ err w' rest out, removeSuperfluousPackages w = Ret err w' ∧
    execs w' = execs w ++ orphan_query :: rest ∧ stdout w' = stdout w ++ out.
Proof.
  unfold Archupd.removeSuperfluousPackages, Archupd.RunCapture, mbind, prog_bind.
  fold orphan_query.
  destruct (start_err (system (execs w) orphan_query (files w))) as [e|]; simpl.
  - destruct e as [code|msg]; [destruct (code =? 1)|]; simpl.
    + eexists _, _, [], [_]. split; [reflexivity|]. by split.
    + eexists _, _, [], []. split; [reflexivity|]. simpl. by rewrite List.app_nil_r.
    + eexists _, _, [], []. split; [reflexivity|]. simpl. by rewrite List.app_nil_r.
  - destruct (wait_err (system (execs w) orphan_query (files w))) as [[code|msg]|].
    + destruct (code =? 1); simpl.
      * eexists _, _, [], [_]. split; [reflexivity|]. by split.
      * eexists _, _, [], []. split; [reflexivity|]. simpl. by rewrite List.app_nil_r.
    + eexists _, _, [], []. split; [reflexivity|]. simpl. by rewrite List.app_nil_r.
    + destruct (length _ =? 0)%nat; simpl.
      * eexists _, _, [], []. split; [reflexivity|]. simpl. by rewrite List.app_nil_r.
      * match goal with |- context [Archupd.Run system ?argv ?w0] =>
          destruct (Run_execs argv w0) as (err & w' & -> & He & Ho) end.
        simpl in He, Ho. eexists _, _, [_], [_]. split; [reflexivity|].
        rewrite He, Ho, <- List.app_assoc. done.
Qed.

Lemma prelude_execs w :
  match prelude w with
  | Ret _ w4 =>
      execs w4 = execs w ++ [cleanup_cmd; changelog_query; upgrade_cmd] ∧
      stdout w4 = stdout w
  | Exit code w' =>
      code = 1 ∧ execs w' `prefix_of` execs w ++ [cleanup_cmd; changelog_query; upgrade_cmd]
  end.
Proof.
  unfold Archupd.prelude, mbind, prog_bind, Archupd.pacman.
  match goal with |- context [Archupd.Run system ?argv w] =>
    destruct (Run_execs argv w) as (err & w1 & -> & He1 & Ho1) end.
  fold cleanup_cmd in He1.
  destruct err as [e|]; simpl.
  { split; [done|]. rewrite He1. by apply prefix_app, prefix_cons, prefix_nil. }
  destruct (getChangelogs_execs w1) as (r & w2 & -> & He2 & Ho2).
  destruct r as [pre|e]; simpl.
  2:{ split; [done|]. rewrite He2, He1, <- List.app_assoc.
      by apply prefix_app, prefix_cons, prefix_cons, prefix_nil. }
  unfold newLogMonitor, Open, SeekEnd, mbind, prog_bind; simpl.
  destruct (files w2 !! PACMAN_LOG_PATH) as [content|] eqn:Hlog; simpl.
  2:{ split; [done|]. rewrite He2, He1, <- List.app_assoc.
      by apply prefix_app, prefix_cons, prefix_cons, prefix_nil. }
  rewrite Hlog; simpl.
  match goal with |- context [Archupd.Run system ?argv ?w0] =>
    destruct (Run_execs argv w0) as (err & w4 & -> & He4 & Ho4) end.
  fold upgrade_cmd in He4. simpl in He4, Ho4.
  destruct err as [e|]; simpl.
  - split; [done|]. rewrite He4, He2, He1, <- !List.app_assoc. done.
  - rewrite He4, He2, He1, <- !List.app_assoc. split; [done|]. congruence.
Qed.

(** C8, as amended. In a run that does not stop before the log tail
    is read, the commands run so far are the cleanup, the first
    changelog query and the upgrade. When no line of the tail holds the
    marker, the run ends there: it prints the blank line and the news,
    and runs no further command. When a line holds the marker, the
    changelog query is run again; if it succeeds, the diff of the two
    snapshots is printed and the orphan query is run next; if it fails,
    the run ends with exit code 1 before the diff and the orphan query.
    A run that stops earlier has run none of the three steps. *)
Theorem post_steps_gated_by_marker (fs : gmap string string) (arg0 : string)
    (news : list string) :
  let r := main false arg0 news (start fs) in
  match prelude (start fs) with
  | Exit code w' =>
      r = Exit code w' ∧
      execs w' `prefix_of` [cleanup_cmd; changelog_query; upgrade_cmd]
  | Ret (pre, ls) w4 =>
      execs w4 = [cleanup_cmd; changelog_query; upgrade_cmd] ∧
      if found_marker ls then
        match getChangelogs (emit w4 (alpm_output ls)) with
        | Ret (inl post) _ =>
            ∃ rest out,
              execs (world_of r) =
                [cleanup_cmd; changelog_query; upgrade_cmd; changelog_query;
                 orphan_query] ++ rest ∧
              stdout (world_of r) = alpm_output ls ++ diff_report pre post ++ out
        | Ret (inr e) w6 =>
            r = Exit 1 (emit w6 [PrintError e]) ∧
            execs w6 = [cleanup_cmd; changelog_query; upgrade_cmd; changelog_query]
        | Exit _ _ => False
        end
      else r = Ret () (emit w4 (Text nl :: news_output news))
  end.
Proof.
  intros r. subst r. rewrite main_prelude.
  pose proof (prelude_execs (start fs)) as Hp.
  destruct (prelude (start fs)) as [[pre ls] w4|code w']; simpl in Hp.
  2:{ by destruct Hp. }
  destruct Hp as [He4 Ho4]. split; [done|].
  destruct (found_marker ls) eqn:Hfound; unfold Archupd.after_tail, mbind, prog_bind.
  - destruct (getChangelogs_execs (emit w4 (alpm_output ls))) as (r & w6 & -> & He6 & Ho6).
    simpl in He6, Ho6. rewrite He4 in He6. rewrite Ho4 in Ho6. simpl in He6, Ho6.
    destruct r as [post|e]; simpl.
    + rewrite showChangelogDiff_spec.
      match goal with |- context [Archupd.removeSuperfluousPackages system ?w0] =>
        destruct (removeSuperfluousPackages_execs w0) as (err & w7 & rest & out & -> & He7 & Ho7)
      end.
      simpl in He7, Ho7. rewrite He6 in He7. rewrite Ho6 in Ho7. simpl in He7.
      destruct err as [e|]; simpl.
      * exists rest, (out ++ [PrintError e]). rewrite He7, Ho7.
        by rewrite <- !List.app_assoc.
      * rewrite drain_spec. simpl. exists rest, (out ++ Text nl :: news_output news).
        rewrite He7, Ho7. by rewrite <- !List.app_assoc.
    + done.
  - unfold alpm_output. rewrite Hfound, emit_nil. simpl. rewrite drain_spec.
    unfold emit; simpl. by rewrite <- List.app_assoc.
Qed.

(** *** More on the removal, the differ and the orchestration *)

(** When the orphan query succeeds and prints package names one per
    line, the removal command is run once, after the announcement, with
    exactly these names in this order as its arguments, and its error is
    what [removeSuperfluousPackages] returns. *)
Theorem removal_names_listed_orphans (w : World) (names : list string) :
  start_err (system (execs w) orphan_query (files w)) = None →
  wait_err (system (execs w) orphan_query (files w)) = None →
  cmd_stdout (system (execs w) orphan_query (files w)) = ParserFacts.join_lines names →
  names ≠ [] →
  Forall (λ name, name ≠ "" ∧ in_cutset LF name = false) names →
  removeSuperfluousPackages w =
    Run (["sudo"; "pacman"; "-Rs"] ++ names)
      (printed (ran w orphan_query (files_after (system (execs w) orphan_query (files w))))
         (Text (nl +:+ "Superfluous packages can be removed:" +:+ nl))) ∧
  execs (world_of (removeSuperfluousPackages w)) =
    execs w ++ [orphan_query; ["sudo"; "pacman"; "-Rs"] ++ names].
Proof.
  intros Hs Hw Ho Hne Hnames.
  rewrite (removeSuperfluousPackages_success w Hs Hw). cbv zeta. rewrite Ho.
  rewrite (ParserFacts.Split_TrimRight_join_lines names Hne Hnames).
  split; [done|].
  destruct (Run_execs (["sudo"; "pacman"; "-Rs"] ++ names)
              (printed (ran w orphan_query
                 (files_after (system (execs w) orphan_query (files w))))
                 (Text (nl +:+ "Superfluous packages can be removed:" +:+ nl))))
    as (err & w' & -> & He & _).
  simpl in *. by rewrite He, <- List.app_assoc.
Qed.

Lemma rest_outcome found pre news w :
  match (after_tail found pre;; put (Text nl);; drain news) w with
  | Ret _ w' => ∃ out, stdout w' = stdout w ++ out ++ Text nl :: news_output news
  | Exit code w' => code = 1 ∧ ∃ out e, stdout w' = stdout w ++ out ++ [PrintError e]
  end.
Proof.
  unfold Archupd.after_tail, mbind, prog_bind. destruct found.
  - destruct (getChangelogs_execs w) as (r & w1 & -> & _ & Ho1).
    destruct r as [post|e]; simpl.
    + rewrite showChangelogDiff_spec.
      match goal with |- context [Archupd.removeSuperfluousPackages system ?w0] =>
        destruct (removeSuperfluousPackages_execs w0) as (err & w2 & rest & out & -> & _ & Ho2)
      end.
      simpl in Ho2. rewrite Ho1 in Ho2. destruct err as [e|]; simpl.
      * split; [done|]. exists (diff_report pre post ++ out), e.
        rewrite Ho2. by rewrite <- !List.app_assoc.
      * rewrite drain_spec. simpl. exists (diff_report pre post ++ out).
        rewrite Ho2. by rewrite <- !List.app_assoc.
    + split; [done|]. exists [], e. by rewrite Ho1.
  - simpl. rewrite drain_spec. simpl. exists []. by rewrite <- List.app_assoc.
Qed.

(** The log lines [main] shows are taken from what the upgrade appended
    to the log: when the cleanup and the first changelog query succeed,
    the log then holds [old], and the upgrade succeeds and leaves the log
    as [old] followed by [appended], the lines handed to the loop of
    [main] are the scanner's lines of [appended], and the first things
    [main] itself prints are the marker lines among them, under their
    heading if there is any; no line of [old] is shown. *)
Theorem shown_log_lines_are_appended (fs : gmap string string) (arg0 : string)
    (news : list string) (old appended : string) :
  let o1 := system [] cleanup_cmd fs in
  let o2 := system [cleanup_cmd] changelog_query (files_after o1) in
  let o3 := system [cleanup_cmd; changelog_query] upgrade_cmd (files_after o2) in
  start_err o1 = None → wait_err o1 = None →
  start_err o2 = None → wait_err o2 = None →
  files_after o2 !! PACMAN_LOG_PATH = Some old →
  start_err o3 = None → wait_err o3 = None →
  files_after o3 !! PACMAN_LOG_PATH = Some (old +:+ appended) →
  prelude (start fs) =
    Ret (parseChangelogs (cmd_stdout o2), Bufio.Scan appended)
        {| files := files_after o3; stdout := [];
           execs := [cleanup_cmd; changelog_query; upgrade_cmd] |} ∧
  ∃ out, stdout (world_of (main false arg0 news (start fs))) =
           alpm_output (Bufio.Scan appended) ++ out.
Proof.
  intros o1 o2 o3 Hs1 Hw1 Hs2 Hw2 Hold Hs3 Hw3 Hnew.
  assert (prelude (start fs) =
    Ret (parseChangelogs (cmd_stdout o2), Bufio.Scan appended)
        {| files := files_after o3; stdout := [];
           execs := [cleanup_cmd; changelog_query; upgrade_cmd] |}) as Hprelude.
  { unfold Archupd.prelude, mbind, prog_bind, Archupd.pacman, Archupd.Run,
      Archupd.getChangelogs. simpl.
    fold cleanup_cmd changelog_query. fold o1. rewrite Hs1, Hw1. simpl.
    fold o2. rewrite Hs2, Hw2. simpl.
    unfold newLogMonitor, Open, SeekEnd, mbind, prog_bind. simpl.
    rewrite Hold. simpl. rewrite Hold. simpl.
    fold upgrade_cmd. fold o3. rewrite Hs3, Hw3. simpl.
    unfold lines, ReadToEnd, mbind, prog_bind. simpl. rewrite Hnew. simpl.
    by rewrite skip_app. }
  split; [done|].
  rewrite main_prelude, Hprelude.
  pose proof (rest_outcome (found_marker (Bufio.Scan appended))
                (parseChangelogs (cmd_stdout o2)) news
                (emit {| files := files_after o3; stdout := [];
                         execs := [cleanup_cmd; changelog_query; upgrade_cmd] |}
                   (alpm_output (Bufio.Scan appended)))) as Hrest.
  destruct ((after_tail _ _;; put (Text nl);; drain news) _) as [[] w'|code w'].
  - destruct Hrest as (out & Hout). simpl in *. rewrite Hout. eauto.
  - destruct Hrest as (_ & out & e & Hout). simpl in *. rewrite Hout. eauto.
Qed.

(** The calls of [diff.Text] in an output, with their arguments. *)
Definition renderings (out : list Output) : list (string * string * string * string) :=
  omap (λ o, match o with
             | DiffText aName bName a b => Some (aName, bName, a, b)
             | _ => None
             end) out.

(** The call of [diff.Text] that an entry of [post] asks for, if any. *)
Definition rendering_of (pre : gmap string string) (entry : string * string)
    : option (string * string * string * string) :=
  match pre !! entry.1 with
  | Some logPre =>
      if decide (logPre ≠ entry.2)
      then Some (entry.1 +:+ " (before)", entry.1 +:+ " (after)", logPre, entry.2)
      else None
  | None => None
  end.

Lemma renderings_app out1 out2 : renderings (out1 ++ out2) = renderings out1 ++ renderings out2.
Proof. apply omap_app. Qed.

Lemma renderings_diff_outputs pre entries : ∀ foundAny,
  renderings (diff_outputs pre foundAny entries) = omap (rendering_of pre) entries.
Proof.
  induction entries as [|entry rest IH]; intros foundAny; [done|].
  simpl. rewrite renderings_app, IH. unfold Archupd.diff_output, rendering_of.
  destruct (pre !! entry.1) as [logPre|]; [|done].
  destruct (decide (logPre ≠ entry.2)); [|done].
  by destruct foundAny, (diff_err logPre entry.2).
Qed.

Lemma heading_first pre entries :
  omap (rendering_of pre) entries ≠ [] →
  ∃ rest, diff_outputs pre false entries =
            Text ((nl +:+ "Changelog diffs:" +:+ nl) +:+ nl) :: rest.
Proof.
  induction entries as [|entry entries IH]; [done|].
  simpl. unfold Archupd.diff_output, changed, rendering_of.
  destruct (pre !! entry.1) as [logPre|]; [|exact IH].
  destruct (decide (logPre ≠ entry.2)) as [Hne|Heq].
  - intros _. simpl. eauto.
  - rewrite bool_decide_eq_false_2 by done. exact IH.
Qed.

(** [showChangelogDiff] only prints: it runs no command and leaves the
    files alone. It calls [diff.Text] once for each package of [post]
    that [pre] holds with another text, labelled with the package name
    and given the two texts, and for nothing else; and when it calls it
    at all, the heading "Changelog diffs:" is the first thing printed. *)
Theorem changed_packages_rendered_once (pre post : gmap string string) (w : World) :
  ∃ out,
    showChangelogDiff pre post w = Ret () (emit w out) ∧
    renderings out ≡ₚ omap (rendering_of pre) (map_to_list post) ∧
    (renderings out ≠ [] →
       ∃ rest, out = Text ((nl +:+ "Changelog diffs:" +:+ nl) +:+ nl) :: rest).
Proof.
  exists (diff_report pre post). split; [apply showChangelogDiff_spec|].
  assert (renderings (diff_report pre post) = omap (rendering_of pre) (range_order post))
    as Hr.
  { unfold diff_report. rewrite renderings_app, renderings_diff_outputs.
    destruct (existsb _ _); simpl; by rewrite List.app_nil_r. }
  split; [by rewrite Hr, range_order_perm|].
  rewrite Hr. intros Hsome. destruct (heading_first _ _ Hsome) as (rest & Hrest).
  unfold diff_report. rewrite Hrest. simpl. eauto.
Qed.

(** The line holds the marker somewhere. *)
Definition has_marker (line : string) : Prop :=
  ∃ before after, line = before +:+ PACMAN_LOG_ALPM_MARKER +:+ after.

Lemma Contains_unfold b sub :
  Contains b sub =
    match CutPrefix b sub with
    | Some _ => true
    | None => match b with
              | EmptyString => false
              | String _ rest => Contains rest sub
              end
    end.
Proof. by destruct b. Qed.

(** [bytes.Contains] finds the substring wherever it stands. *)
Lemma Contains_substring b sub :
  Contains b sub = true ↔ ∃ before after, b = before +:+ sub +:+ after.
Proof.
  split.
  - induction b as [|c b IH]; rewrite Contains_unfold.
    + destruct (CutPrefix "" sub) as [r|] eqn:E; [|done].
      intros _. apply StringFacts.CutPrefix_Some in E. by exists "", r.
    + destruct (CutPrefix (String c b) sub) as [r|] eqn:E.
      * intros _. apply StringFacts.CutPrefix_Some in E. by exists "", r.
      * intros (before & after & ->)%IH. by exists (String c before), after.
  - intros (before & after & ->). induction before as [|c before IH].
    + rewrite Contains_unfold.
      change ("" +:+ sub +:+ after) with (sub +:+ after).
      by rewrite StringFacts.CutPrefix_app.
    + rewrite Contains_unfold, StringFacts.app_cons.
      by destruct (CutPrefix _ sub).
Qed.

Global Instance has_marker_dec line : Decision (has_marker line).
Proof.
  destruct (Contains line PACMAN_LOG_ALPM_MARKER) eqn:E.
  - left. by apply Contains_substring.
  - right. intros H%Contains_substring. congruence.
Defined.

Lemma filter_has_marker (ls : list string) :
  filter (λ line, Is_true (Contains line PACMAN_LOG_ALPM_MARKER)) ls = filter has_marker ls.
Proof.
  apply list_filter_iff. intros line. rewrite Is_true_true. apply Contains_substring.
Qed.

(** The loop of [main] over the log tail prints, in the order of the
    tail and as often as they occur, exactly the lines that hold the
    marker, each followed by a newline, under the heading "ALPM logs:"
    printed once before them; it prints nothing when no line holds the
    marker, and it returns whether one does. *)
Theorem tail_loop_shows_marker_lines (ls : list string) (w : World) :
  tail_loop false ls w =
    Ret (bool_decide (filter has_marker ls ≠ []))
        (emit w match filter has_marker ls with
                | [] => []
                | shown => Text ((nl +:+ "ALPM logs:") +:+ nl) ::
                             ((λ line, Text (line +:+ nl)) <$> shown)
                end).
Proof.
  rewrite tail_loop_spec. simpl. unfold tail_output, alpm_output, alpm_lines.
  rewrite filter_has_marker.
  assert (found_marker ls = bool_decide (filter has_marker ls ≠ [])) as ->.
  { unfold found_marker. rewrite <- filter_has_marker.
    induction ls as [|line ls IH]; [done|]. simpl.
    destruct (Contains line PACMAN_LOG_ALPM_MARKER) eqn:E; simpl.
    - by rewrite filter_cons_True by (by rewrite E).
    - by rewrite filter_cons_False by (rewrite E; intros []). }
  destruct (filter has_marker ls) eqn:E.
  - by rewrite bool_decide_eq_false_2 by (by intros ?).
  - by rewrite bool_decide_eq_true_2 by done.
Qed.

End Facts.

(** *** Concrete runs *)

(** A system in which every command succeeds, prints nothing and
    changes nothing. *)
Definition silent_outcome (fs : gmap string string) : CmdOutcome :=
  {| start_err := None; cmd_stdout := ""; wait_err := None; files_after := fs |}.

Definition silent_system : list (list string) → list string → gmap string string → CmdOutcome :=
  λ _ _ fs, silent_outcome fs.

(** A system whose orphan query ends with the given exit code. *)
Definition orphan_exit_system (code : Z)
    : list (list string) → list string → gmap string string → CmdOutcome :=
  λ _ argv fs,
    if decide (argv = orphan_query) then
      {| start_err := None; cmd_stdout := ""; wait_err := Some (ExitError code);
         files_after := fs |}
    else silent_outcome fs.

Lemma orphan_exit_code_1_witness :
  ∃ w', removeSuperfluousPackages (orphan_exit_system 1) (start ∅) = Ret None w' ∧
        execs w' = [orphan_query] ∧
        stdout w' = [Text (nl +:+ "No superfluous packages." +:+ nl)].
Proof.
  apply (orphan_exit_code_disambiguation (orphan_exit_system 1) (start ∅) 1);
    reflexivity.
Defined.

Lemma empty_orphan_list_witness :
  execs (world_of (removeSuperfluousPackages silent_system (start ∅))) =
    [orphan_query; ["sudo"; "pacman"; "-Rs"; ""]].
Proof.
  apply (empty_orphan_list_guard_unreachable silent_system (start ∅)); reflexivity.
Defined.

Definition no_diff_err : string → string → option error := λ _ _, None.

Lemma map_to_list_order : ∀ m : gmap string string, map_to_list m ≡ₚ map_to_list m.
Proof. reflexivity. Qed.

Lemma changelog_diff_rendering_witness :
  ∃ out,
    showChangelogDiff map_to_list no_diff_err {["foo" := "v1"]} {["foo" := "v2"]} (start ∅) =
      Ret () (emit (start ∅) out) ∧
    rendered "foo" out.
Proof.
  destruct (changelog_diff_rendering map_to_list map_to_list_order no_diff_err
              {["foo" := "v1"]} {["foo" := "v2"]} "foo" (start ∅))
    as (out & Heq & _ & _ & Hr & _).
  exists out. split; [exact Heq|].
  apply Hr. exists "v1", "v2". split; [reflexivity|]. split; [reflexivity|]. discriminate.
Defined.

(** A system in which the upgrade appends one line with the marker to
    the log, and the changelog query fails once the upgrade has run. *)
Definition marker_line : string :=
  "[2024-05-01T10:00:00+0000] [ALPM] upgraded foo (1.0-1 -> 1.1-1)".

Definition failing_post_snapshot
    : list (list string) → list string → gmap string string → CmdOutcome :=
  λ hist argv fs,
    if decide (argv = upgrade_cmd) then
      {| start_err := None; cmd_stdout := ""; wait_err := None;
         files_after :=
           <[PACMAN_LOG_PATH := default "" (fs !! PACMAN_LOG_PATH) +:+ marker_line +:+ nl]> fs |}
    else if decide (argv = changelog_query ∧ upgrade_cmd ∈ hist) then
      {| start_err := None; cmd_stdout := ""; wait_err := Some (ExitError 1);
         files_after := fs |}
    else silent_outcome fs.

(** C8, the claim as stated fails when the second changelog query
    fails: a marker line was found and printed, yet the run ends with
    exit code 1 and neither prints a diff nor runs the orphan query. *)
Lemma marker_found_post_snapshot_fails :
  ∃ w, main failing_post_snapshot map_to_list no_diff_err false "archupd" []
         (start {[PACMAN_LOG_PATH := "old entry" +:+ nl]}) = Exit 1 w ∧
       stdout w = [Text ((nl +:+ "ALPM logs:") +:+ nl); Text (marker_line +:+ nl);
                   PrintError (ExitError 1)] ∧
       execs w = [cleanup_cmd; changelog_query; upgrade_cmd; changelog_query] ∧
       orphan_query ∉ execs w.
Proof.
  eexists. split; [vm_compute; reflexivity|]. split; [reflexivity|].
  split; [reflexivity|]. simpl. rewrite !elem_of_cons. intros [H|[H|[H|[H|H]]]];
    try discriminate. by apply elem_of_nil in H.
Qed.

(** A system whose changelog query prints the output of the scenario. *)
Definition scenario_system
    : list (list string) → list string → gmap string string → CmdOutcome :=
  λ _ argv fs,
    if decide (argv = changelog_query) then
      {| start_err := None; cmd_stdout := scenario_output; wait_err := None;
         files_after := fs |}
    else silent_outcome fs.

Lemma getChangelogs_scenario_witness :
  ∃ m,
    getChangelogs scenario_system (start ∅) =
      Ret (inl m) (ran (start ∅) changelog_query ∅) ∧
    m = Spec.getChangelogs scenario_output ∧
    m = <["bar" := ("line2" +:+ nl) +:+ "line3" +:+ nl]> (<["foo" := "line1" +:+ nl]> ∅).
Proof.
  destruct (getChangelogs_refines_spec scenario_system (start ∅) eq_refl eq_refl eq_refl)
    as (m & Hrun & _ & Hplain & _).
  exists m. split; [exact Hrun|]. split; [exact (Hplain eq_refl)|].
  rewrite (Hplain eq_refl). by vm_compute.
Defined.

(** C1, the claim as stated fails on a line that ends in a carriage
    return and a newline: the specification appends the line verbatim,
    the program appends it without the carriage return. *)
Lemma carriage_return_not_verbatim :
  let text := "Changelog for foo:" +:+ nl +:+ "line1" +:+ String CR nl in
  parseChangelogs text = {["foo" := "line1" +:+ nl]} ∧
  Spec.getChangelogs text = {["foo" := "line1" +:+ String CR nl]} ∧
  parseChangelogs text ≠ Spec.getChangelogs text.
Proof.
  split; [by vm_compute|]. split; [by vm_compute|].
  intros H. apply (f_equal (λ m : gmap string string, m !! "foo")) in H.
  vm_compute in H. discriminate.
Qed.



(** A system whose orphan query lists two packages. *)
Definition two_orphans_system
    : list (list string) → list string → gmap string string → CmdOutcome :=
  λ _ argv fs,
    if decide (argv = orphan_query) then
      {| start_err := None; cmd_stdout := ParserFacts.join_lines ["libfoo"; "bar-git"];
         wait_err := None; files_after := fs |}
    else silent_outcome fs.

Lemma removal_names_listed_orphans_witness :
  execs (world_of (removeSuperfluousPackages two_orphans_system (start ∅))) =
    [orphan_query; ["sudo"; "pacman"; "-Rs"; "libfoo"; "bar-git"]].
Proof.
  apply (removal_names_listed_orphans two_orphans_system (start ∅) ["libfoo"; "bar-git"]);
    try reflexivity; [discriminate|].
  repeat constructor; discriminate.
Defined.

Lemma shown_log_lines_are_appended_witness :
  ∃ out,
    stdout (world_of (main failing_post_snapshot map_to_list no_diff_err false "archupd" []
                        (start {[PACMAN_LOG_PATH := "old [ALPM] entry" +:+ nl]}))) =
      alpm_output (Bufio.Scan (marker_line +:+ nl)) ++ out.
Proof.
  apply (shown_log_lines_are_appended failing_post_snapshot map_to_list no_diff_err
           {[PACMAN_LOG_PATH := "old [ALPM] entry" +:+ nl]} "archupd" []
           ("old [ALPM] entry" +:+ nl) (marker_line +:+ nl)); reflexivity.
Defined.

Lemma changed_packages_rendered_once_witness :
  ∃ out,
    showChangelogDiff map_to_list no_diff_err
      {["foo" := "v1"; "bar" := "same"]} {["foo" := "v2"; "bar" := "same"]} (start ∅) =
      Ret () (emit (start ∅) out) ∧
    renderings out ≡ₚ [("foo (before)", "foo (after)", "v1", "v2")].
Proof.
  destruct (changed_packages_rendered_once map_to_list map_to_list_order no_diff_err
              {["foo" := "v1"; "bar" := "same"]} {["foo" := "v2"; "bar" := "same"]}
              (start ∅)) as (out & Hrun & Hperm & _).
  exists out. split; [exact Hrun|]. rewrite Hperm. by vm_compute.
Defined.

End ArchupdFacts.

(** ** The news poller *)

Module NewsFacts.

Import News.

Section Facts.

Variable json_decode : string → State → State.
Variable json_encode : State → string.
Variable xml_decode : string → string + list FeedItem.
Variable format_local : Z → string.
Variable sort_slice : list FeedItem → list FeedItem.
Hypothesis sort_slice_perm : ∀ items, sort_slice items ≡ₚ items.
Hypothesis sort_slice_sorted : ∀ items,
  StronglySorted (λ a b, Time b <= Time a) (sort_slice items).

Local Abbreviation readState := (News.readState json_decode).
Local Abbreviation writeState := (News.writeState json_encode).
Local Abbreviation item_line := (News.item_line format_local).
Local Abbreviation news_step := (News.news_step format_local).
Local Abbreviation with_write := (News.with_write json_encode).
Local Abbreviation poll := (News.poll json_encode xml_decode format_local sort_slice).
Local Abbreviation readNews :=
  (News.readNews json_decode json_encode xml_decode format_local sort_slice).

(** The items later than the watermark. *)
Definition newer (latest : Z) (items : list FeedItem) : list FeedItem :=
  filter (λ item, latest < Time item) items.

(** The lines the loop sends for the items it finds later than the
    watermark. *)
Definition announce (found : bool) (items : list FeedItem) : list string :=
  match items with
  | [] => []
  | _ => (if found then [] else ["Arch Linux news:"]) ++ (item_line <$> items)
  end.

Lemma news_loop items : ∀ latest sent found,
  foldl (news_step latest) (sent, found) items =
    (sent ++ announce found (newer latest items),
     found || bool_decide (newer latest items ≠ [])).
Proof.
  unfold newer.
  induction items as [|item items IH]; intros latest sent found; simpl.
  - by rewrite List.app_nil_r, orb_false_r.
  - unfold News.news_step at 2, After. simpl.
    destruct (Z.ltb_spec latest (Time item)) as [Hlt|Hge].
    + rewrite filter_cons_True by done. rewrite IH. simpl.
      rewrite orb_true_r. f_equal.
      rewrite <- !List.app_assoc. f_equal.
      destruct found; simpl; by destruct (base.filter _ items).
    + rewrite filter_cons_False by lia. apply IH.
Qed.

(** The first item of the sorted feed is a newest item of the feed. *)
Lemma sorted_first_newest items first rest :
  sort_slice items = first :: rest →
  first ∈ items ∧ ∀ item, item ∈ items → Time item <= Time first.
Proof.
  intros Hs. pose proof (sort_slice_perm items) as Hp.
  pose proof (sort_slice_sorted items) as Hsorted.
  rewrite Hs in Hp, Hsorted. split.
  - rewrite <- Hp. by left.
  - intros item Hin. rewrite <- Hp in Hin.
    apply elem_of_cons in Hin as [->|Hin]; [lia|].
    apply StronglySorted_inv in Hsorted as [_ Hall].
    rewrite List.Forall_forall in Hall. apply Hall. by apply list_elem_of_In.
Qed.

Lemma sort_slice_nonempty items :
  items ≠ [] → ∃ first rest, sort_slice items = first :: rest.
Proof.
  intros Hne. destruct (sort_slice items) as [|first rest] eqn:Hs; [|eauto].
  pose proof (sort_slice_perm items) as Hp. rewrite Hs in Hp.
  by apply Permutation_nil in Hp.
Qed.

(** A poll whose fetch succeeds and whose feed parses to some items. *)
Lemma poll_items env state diag status lastMod body items first rest :
  request_err env = None →
  http_do env (request_headers state) = Response StatusOK status lastMod body →
  xml_decode body = inr items →
  sort_slice items = first :: rest →
  poll env state diag =
    with_write env diag
      (match newer (LatestItemTime state) (first :: rest) with
       | [] => ["No Arch Linux news."]
       | emitted => "Arch Linux news:" :: (item_line <$> emitted)
       end)
      {| LastModified := LastModified (capture_validator state lastMod);
         LatestItemTime := Time first |}.
Proof.
  intros Hreq Hresp Hxml Hsort. unfold News.poll.
  rewrite Hreq, Hresp. simpl. rewrite Hxml, Hsort.
  match goal with |- context [foldl ?f (?f ?a first) rest] =>
    change (foldl f (f a first) rest) with (foldl f a (first :: rest)) end.
  rewrite news_loop.
  assert (LatestItemTime (capture_validator state lastMod) = LatestItemTime state) as ->
    by (by destruct lastMod).
  f_equal. unfold announce.
  destruct (newer (LatestItemTime state) (first :: rest)) eqn:E.
  - by rewrite bool_decide_eq_false_2 by (by intros ?).
  - rewrite bool_decide_eq_true_2 by done. simpl. by rewrite List.app_nil_r.
Qed.

Lemma written_with_write env diag msgs state :
  written (with_write env diag msgs state) = [state] ∧
  channel (with_write env diag msgs state) = msgs.
Proof.
  unfold News.with_write, News.writeState.
  destruct (mkdir_err env); [done|]. by destruct (create_err env).
Qed.

Lemma file_after_with_write env diag msgs state :
  mkdir_err env = None → create_err env = None →
  file_after (with_write env diag msgs state) = Content (json_encode state).
Proof. intros Hm Hc. unfold News.with_write, News.writeState. by rewrite Hm, Hc. Qed.

Local Abbreviation updall_poll :=
  (Updall.poll json_encode xml_decode format_local sort_slice).

Lemma updall_with_write env diag msgs st :
  written (Updall.with_write json_encode env diag msgs st) = [st] ∧
  (create_err env = None →
     file_after (Updall.with_write json_encode env diag msgs st) =
       Content (json_encode st)).
Proof.
  unfold Updall.with_write, Updall.writeState.
  by destruct (create_err env).
Qed.

(** C2, as amended. After a fetch that ends with status 200, the poller
    of [updall.go] hands the state to [writeState] exactly once, with the
    cache validator of the response, whether the feed parses or not. The
    poller of [archupd.go] does so when the feed parses; when it does not
    parse, it never calls [writeState] and leaves the state file as it
    was. Where [writeState] is called and can create the file, the file
    then holds the encoding of that state. *)
Theorem state_persisted_after_fetch (env : Env) (state : State) (diag : list error)
    (status : string) (lastMod : list string) (body : string) :
  request_err env = None →
  http_do env (request_headers state) = Response StatusOK status lastMod body →
  (∃ st, written (updall_poll env state diag) = [st] ∧
         LastModified st = LastModified (capture_validator state lastMod) ∧
         (create_err env = None →
            file_after (updall_poll env state diag) = Content (json_encode st))) ∧
  match xml_decode body with
  | inr _ =>
      ∃ st, written (poll env state diag) = [st] ∧
            LastModified st = LastModified (capture_validator state lastMod) ∧
            (mkdir_err env = None → create_err env = None →
               file_after (poll env state diag) = Content (json_encode st))
  | inl _ =>
      written (poll env state diag) = [] ∧
      file_after (poll env state diag) = state_file env
  end.
Proof.
  intros Hreq Hresp. unfold News.poll, Updall.poll. rewrite Hreq, Hresp. simpl.
  destruct (xml_decode body) as [e|items]; simpl.
  - split; [|done]. eexists. split; [apply updall_with_write|].
    split; [done|apply updall_with_write].
  - destruct (sort_slice items) as [|first rest].
    + split; eexists.
      * split; [apply updall_with_write|]. split; [done|apply updall_with_write].
      * split; [apply written_with_write|]. split; [done|apply file_after_with_write].
    + split.
      * destruct (foldl _ _ _) as [sent gotAny]. eexists.
        split; [apply updall_with_write|]. split; [done|apply updall_with_write].
      * destruct (foldl _ _ _) as [sent foundAny]. eexists.
        split; [apply written_with_write|]. split; [done|apply file_after_with_write].
Qed.

(** C4, as amended. After a poll whose fetch succeeds and whose feed
    parses to at least one item, the state handed to [writeState], which
    the state file then holds if it can be created, has as watermark the
    time of a newest item of that feed. So the watermark does not go
    back exactly when the feed holds an item that is not older than the
    watermark the poll started from. *)
Theorem watermark_follows_feed (env : Env) (state : State) (diag : list error)
    (status : string) (lastMod : list string) (body : string) (items : list FeedItem) :
  request_err env = None →
  http_do env (request_headers state) = Response StatusOK status lastMod body →
  xml_decode body = inr items →
  items ≠ [] →
  ∃ st,
    written (poll env state diag) = [st] ∧
    (mkdir_err env = None → create_err env = None →
       file_after (poll env state diag) = Content (json_encode st)) ∧
    (∃ item, item ∈ items ∧ LatestItemTime st = Time item) ∧
    (∀ item, item ∈ items → Time item <= LatestItemTime st) ∧
    (LatestItemTime state <= LatestItemTime st ↔
       ∃ item, item ∈ items ∧ LatestItemTime state <= Time item).
Proof.
  intros Hreq Hresp Hxml Hne.
  destruct (sort_slice_nonempty items Hne) as (first & rest & Hsort).
  rewrite (poll_items env state diag status lastMod body items first rest) by done.
  destruct (sorted_first_newest items first rest Hsort) as [Hin Hmax].
  eexists. split; [apply written_with_write|].
  split; [apply file_after_with_write|]. simpl.
  split; [by exists first|]. split; [done|]. split.
  - intros Hle. by exists first.
  - intros (item & Hitem & Hle). specialize (Hmax item Hitem). lia.
Qed.

(** C5. In a poll whose fetch succeeds and whose feed parses to at
    least one item, the items announced on the channel are the items of
    the feed that are later than the watermark the poll loaded, each
    once, and no item at or before the watermark is among them. With no
    state file the request carries no header, and when the feed then
    holds three items later than the zero time, these three are
    announced and the watermark handed to [writeState] is the latest of
    their times. *)
Theorem no_duplicate_announcement (env : Env) (status : string)
    (lastMod : list string) (body : string) (items : list FeedItem) :
  request_err env = None →
  http_do env (request_headers (readState env).1) = Response StatusOK status lastMod body →
  xml_decode body = inr items →
  items ≠ [] →
  ∃ emitted st,
    emitted ≡ₚ newer (LatestItemTime (readState env).1) items ∧
    (∀ item, item ∈ emitted → LatestItemTime (readState env).1 < Time item) ∧
    channel (readNews env) =
      match emitted with
      | [] => ["No Arch Linux news."]
      | _ => "Arch Linux news:" :: (item_line <$> emitted)
      end ∧
    written (readNews env) = [st] ∧
    (state_file env = Missing →
       request_headers (readState env).1 = [] ∧
       ∀ a b c, items = [a; b; c] → 0 < Time a → 0 < Time b → 0 < Time c →
         emitted ≡ₚ [a; b; c] ∧
         channel (readNews env) = "Arch Linux news:" :: (item_line <$> emitted) ∧
         length (item_line <$> emitted) = 3%nat ∧
         LatestItemTime st = Z.max (Time a) (Z.max (Time b) (Time c))).
Proof.
  intros Hreq Hresp Hxml Hne.
  destruct (sort_slice_nonempty items Hne) as (first & rest & Hsort).
  destruct (sorted_first_newest items first rest Hsort) as [Hin Hmax].
  unfold News.readNews. destruct (readState env) as [state diag] eqn:Hstate.
  simpl in *.
  rewrite (poll_items env state diag status lastMod body items first rest) by done.
  exists (newer (LatestItemTime state) (first :: rest)). eexists.
  assert (newer (LatestItemTime state) (first :: rest) ≡ₚ newer (LatestItemTime state) items)
    as Hperm.
  { unfold newer. by rewrite <- Hsort, sort_slice_perm. }
  split; [done|]. split.
  { intros item Hitem. unfold newer in Hitem. by apply list_elem_of_filter in Hitem as [? _]. }
  split.
  { rewrite (proj2 (written_with_write _ _ _ _)).
    by destruct (newer (LatestItemTime state) (first :: rest)). }
  split; [apply written_with_write|].
  intros Hmissing. unfold News.readState in Hstate. rewrite Hmissing in Hstate.
  injection Hstate as <- <-. split; [done|].
  intros a b c -> Ha Hb Hc. simpl in Hperm.
  assert (newer 0 [a; b; c] = [a; b; c]) as Hall.
  { unfold newer. by rewrite !filter_cons_True, filter_nil by done. }
  rewrite Hall in Hperm. split; [done|]. split; [|split].
  - rewrite (proj2 (written_with_write _ _ _ _)).
    destruct (newer _ (first :: rest)); [|done].
    by apply Permutation_nil in Hperm.
  - rewrite length_fmap. by apply Permutation_length in Hperm.
  - simpl.
    pose proof (Hmax a ltac:(set_solver)). pose proof (Hmax b ltac:(set_solver)).
    pose proof (Hmax c ltac:(set_solver)).
    apply elem_of_cons in Hin as [->|Hin]; [lia|].
    apply elem_of_cons in Hin as [->|Hin]; [lia|].
    apply list_elem_of_singleton in Hin as ->. lia.
Qed.

(** A poll that does not get a response with status 200 (the request
    cannot be made or sent, or the status is another one, 304 included)
    sends exactly one line, never calls [writeState] and leaves the state
    file as it was; with status 304 the line is "No Arch Linux news." *)
Theorem no_state_change_without_success (env : Env) (state : State) (diag : list error) :
  (∀ status lastMod body,
     request_err env = None →
     http_do env (request_headers state) ≠ Response StatusOK status lastMod body) →
  (∃ line, channel (poll env state diag) = [line]) ∧
  written (poll env state diag) = [] ∧
  file_after (poll env state diag) = state_file env ∧
  (∀ status lastMod body,
     request_err env = None →
     http_do env (request_headers state) = Response StatusNotModified status lastMod body →
     channel (poll env state diag) = ["No Arch Linux news."]).
Proof.
  intros Hno. unfold News.poll.
  destruct (request_err env) as [e|] eqn:Hreq.
  { repeat split; eauto. intros; discriminate. }
  destruct (http_do env (request_headers state)) as [msg|code status lastMod body] eqn:Hresp.
  { repeat split; eauto. intros; discriminate. }
  destruct (code =? StatusNotModified) eqn:H304.
  { repeat split; eauto. }
  destruct (code =? StatusOK) eqn:H200; simpl.
  { apply Z.eqb_eq in H200 as ->. by destruct (Hno status lastMod body). }
  repeat split; eauto.
  intros status' lastMod' body' _ [= -> _ _ _]. discriminate.
Qed.

(** *** More on the poller *)

Local Abbreviation updall_readNews :=
  (Updall.readNews json_decode json_encode xml_decode format_local sort_slice).

Lemma loop_sends_when_found (step : list string * bool → FeedItem → list string * bool)
    (items : list FeedItem) :
  (∀ acc item, (acc.2 = true → acc.1 ≠ []) →
               (step acc item).2 = true → (step acc item).1 ≠ []) →
  ∀ acc, (acc.2 = true → acc.1 ≠ []) →
         (foldl step acc items).2 = true → (foldl step acc items).1 ≠ [].
Proof.
  intros Hstep. induction items as [|item items IH]; intros acc Hacc; [done|].
  simpl. apply IH. by apply Hstep.
Qed.

Lemma with_write_channel env diag msgs state :
  channel (with_write env diag msgs state) = msgs.
Proof. apply written_with_write. Qed.

Lemma updall_with_write_channel env diag msgs state :
  channel (Updall.with_write json_encode env diag msgs state) = msgs.
Proof. unfold Updall.with_write, Updall.writeState. by destruct (create_err env). Qed.

(** Every poll sends at least one line before it closes the channel, in
    both variants of the poller and whatever the sort does. *)
Theorem channel_never_empty (env : Env) :
  channel (readNews env) ≠ [] ∧ channel (updall_readNews env) ≠ [].
Proof.
  split.
  - unfold News.readNews. destruct (News.readState json_decode env) as [state diag].
    unfold News.poll.
    destruct (request_err env); [done|].
    destruct (http_do env (request_headers state)) as [msg|code status lastMod body]; [done|].
    destruct (code =? StatusNotModified); [done|].
    destruct (negb (code =? StatusOK)); [done|].
    destruct (xml_decode body) as [e|items]; [done|].
    destruct (sort_slice items) as [|first rest]; [by rewrite with_write_channel|].
    assert (∀ acc item, (acc.2 = true → acc.1 ≠ []) →
              (news_step (LatestItemTime (capture_validator state lastMod)) acc item).2 = true →
              (news_step (LatestItemTime (capture_validator state lastMod)) acc item).1 ≠ [])
      as Hstep.
    { intros acc item Hacc. unfold News.news_step.
      destruct (After _ _); [|done]. simpl. intros _ H.
      apply app_eq_nil in H as [_ H]. by apply app_eq_nil in H as [_ H]. }
    pose proof (loop_sends_when_found _ (first :: rest) Hstep ([], false)
                  ltac:(simpl; discriminate)) as Hloop.
    destruct (foldl _ _ _) as [sent foundAny]. rewrite with_write_channel.
    destruct foundAny; [|by destruct sent]. rewrite List.app_nil_r. by apply Hloop.
  - unfold Updall.readNews. destruct (Updall.readState json_decode env) as [state diag].
    unfold Updall.poll.
    destruct (request_err env); [done|].
    destruct (http_do env (request_headers state)) as [msg|code status lastMod body]; [done|].
    destruct (code =? StatusNotModified); [done|].
    destruct (negb (code =? StatusOK)); [done|].
    destruct (xml_decode body) as [e|items]; [by rewrite updall_with_write_channel|].
    destruct (sort_slice items) as [|first rest]; [by rewrite updall_with_write_channel|].
    assert (∀ acc item, (acc.2 = true → acc.1 ≠ []) →
              (Updall.news_step format_local
                 (LatestItemTime (capture_validator state lastMod)) acc item).2 = true →
              (Updall.news_step format_local
                 (LatestItemTime (capture_validator state lastMod)) acc item).1 ≠ [])
      as Hstep.
    { intros acc item Hacc. unfold Updall.news_step.
      destruct (After _ _); [|done]. simpl. intros _ H.
      by apply app_eq_nil in H as [_ H]. }
    pose proof (loop_sends_when_found _ (first :: rest) Hstep ([], false)
                  ltac:(simpl; discriminate)) as Hloop.
    destruct (foldl _ _ _) as [sent gotAny]. rewrite updall_with_write_channel.
    destruct gotAny; [|by destruct sent]. rewrite List.app_nil_r. by apply Hloop.
Qed.

Lemma StronglySorted_newer latest items :
  StronglySorted (λ a b, Time b <= Time a) items →
  StronglySorted (λ a b, Time b <= Time a) (newer latest items).
Proof.
  unfold newer. induction 1 as [|item items Hsorted IH Hall]; [constructor|].
  destruct (decide (latest < Time item)).
  - rewrite filter_cons_True by done. constructor; [done|].
    rewrite List.Forall_forall in Hall |- *. intros x Hx.
    apply Hall. apply list_elem_of_In in Hx. apply list_elem_of_filter in Hx as [_ Hx].
    by apply list_elem_of_In.
  - by rewrite filter_cons_False.
Qed.

(** The items a poll announces stand on the channel in the order of
    their times, newest first, under a single heading line that comes
    first; when there is none to announce, the only line says so. *)
Theorem announced_newest_first (env : Env) (state : State) (diag : list error)
    (status : string) (lastMod : list string) (body : string) (items : list FeedItem) :
  request_err env = None →
  http_do env (request_headers state) = Response StatusOK status lastMod body →
  xml_decode body = inr items →
  items ≠ [] →
  ∃ emitted,
    StronglySorted (λ a b, Time b <= Time a) emitted ∧
    emitted ≡ₚ newer (LatestItemTime state) items ∧
    channel (poll env state diag) =
      match emitted with
      | [] => ["No Arch Linux news."]
      | _ => "Arch Linux news:" :: (item_line <$> emitted)
      end.
Proof.
  intros Hreq Hresp Hxml Hne.
  destruct (sort_slice_nonempty items Hne) as (first & rest & Hsort).
  rewrite (poll_items env state diag status lastMod body items first rest) by done.
  exists (newer (LatestItemTime state) (first :: rest)). split; [|split].
  - apply StronglySorted_newer. rewrite <- Hsort. apply sort_slice_sorted.
  - unfold newer. by rewrite <- Hsort, sort_slice_perm.
  - rewrite with_write_channel. by destruct (newer _ _).
Qed.

(** Polling again announces nothing twice: when a poll succeeded on a
    feed with items and the next poll starts from the state that poll
    wrote and gets a feed that holds no item later than the newest item
    of the first feed (the same feed, for one), the next poll sends the
    single line "No Arch Linux news." and writes a state whose watermark
    is the time of the newest item of its own feed. *)
Theorem repoll_announces_nothing (env1 env2 : Env) (state st1 : State)
    (diag1 diag2 : list error) (status1 status2 : string) (lastMod1 lastMod2 : list string)
    (body1 body2 : string) (items1 items2 : list FeedItem) :
  request_err env1 = None →
  http_do env1 (request_headers state) = Response StatusOK status1 lastMod1 body1 →
  xml_decode body1 = inr items1 →
  items1 ≠ [] →
  written (poll env1 state diag1) = [st1] →
  request_err env2 = None →
  http_do env2 (request_headers st1) = Response StatusOK status2 lastMod2 body2 →
  xml_decode body2 = inr items2 →
  items2 ≠ [] →
  (∀ item, item ∈ items2 → ∃ item1, item1 ∈ items1 ∧ Time item <= Time item1) →
  channel (poll env2 st1 diag2) = ["No Arch Linux news."] ∧
  ∃ st2, written (poll env2 st1 diag2) = [st2] ∧
         LatestItemTime st2 <= LatestItemTime st1 ∧
         (items2 ≡ₚ items1 → LatestItemTime st2 = LatestItemTime st1).
Proof.
  intros Hreq1 Hresp1 Hxml1 Hne1 Hw1 Hreq2 Hresp2 Hxml2 Hne2 Hold.
  destruct (sort_slice_nonempty items1 Hne1) as (first1 & rest1 & Hsort1).
  destruct (sorted_first_newest items1 first1 rest1 Hsort1) as [Hin1 Hmax1].
  rewrite (poll_items env1 state diag1 status1 lastMod1 body1 items1 first1 rest1) in Hw1
    by done.
  rewrite (proj1 (written_with_write _ _ _ _)) in Hw1. injection Hw1 as <-.
  destruct (sort_slice_nonempty items2 Hne2) as (first2 & rest2 & Hsort2).
  destruct (sorted_first_newest items2 first2 rest2 Hsort2) as [Hin2 Hmax2].
  rewrite (poll_items env2 _ diag2 status2 lastMod2 body2 items2 first2 rest2) by done.
  simpl.
  assert (newer (Time first1) (first2 :: rest2) = []) as ->.
  { unfold newer. destruct (base.filter _ (first2 :: rest2)) as [|item l] eqn:E; [done|].
    assert (item ∈ base.filter (λ item, Time first1 < Time item) (first2 :: rest2)) as Hitem
      by (rewrite E; by left).
    apply list_elem_of_filter in Hitem as [Hlater Hitem].
    rewrite <- Hsort2, sort_slice_perm in Hitem.
    destruct (Hold item Hitem) as (item1 & Hitem1 & Hle).
    specialize (Hmax1 item1 Hitem1). lia. }
  rewrite with_write_channel. split; [done|].
  eexists. split; [apply written_with_write|]. simpl. split.
  - destruct (Hold first2 Hin2) as (item1 & Hitem1 & Hle).
    specialize (Hmax1 item1 Hitem1). lia.
  - intros Hperm. apply Z.le_antisymm.
    + destruct (Hold first2 Hin2) as (item1 & Hitem1 & Hle).
      specialize (Hmax1 item1 Hitem1). lia.
    + apply Hmax2. by rewrite Hperm.
Qed.

(** The request of the next poll: after a poll whose fetch succeeds and
    whose feed parses, a poll that starts from the state it wrote asks
    with [If-Modified-Since] set to the first [Last-Modified] value of
    the response; it sends no such header when that value is empty, and
    the same headers as this poll when the response had no
    [Last-Modified] header. *)
Theorem next_request_carries_validator (env : Env) (state : State) (diag : list error)
    (status : string) (lastMod : list string) (body : string) (items : list FeedItem) :
  request_err env = None →
  http_do env (request_headers state) = Response StatusOK status lastMod body →
  xml_decode body = inr items →
  ∃ st,
    written (poll env state diag) = [st] ∧
    request_headers st =
      match lastMod with
      | v :: _ => if decide (v = "") then [] else [("If-Modified-Since", v)]
      | [] => request_headers state
      end.
Proof.
  intros Hreq Hresp Hxml. unfold News.poll. rewrite Hreq, Hresp. simpl. rewrite Hxml.
  assert (∀ t, request_headers
                 {| LastModified := LastModified (capture_validator state lastMod);
                    LatestItemTime := t |} =
               match lastMod with
               | v :: _ => if decide (v = "") then [] else [("If-Modified-Since", v)]
               | [] => request_headers state
               end) as Hheaders.
  { intros t. unfold request_headers. destruct lastMod as [|v ?]; simpl; [done|].
    destruct (decide (v = "")) as [->|Hv].
    - by rewrite decide_False by (by intros ?).
    - by rewrite decide_True. }
  destruct (sort_slice items) as [|first rest].
  - eexists. split; [apply written_with_write|].
    rewrite <- (Hheaders (LatestItemTime (capture_validator state lastMod))).
    by destruct (capture_validator state lastMod).
  - destruct (foldl _ _ _) as [sent foundAny].
    eexists. split; [apply written_with_write|]. apply Hheaders.
Qed.

End Facts.

(** *** Concrete polls *)

(** Later items first. *)
Definition later_first : relation FeedItem := λ a b, Time b <= Time a.

Global Instance later_first_dec : RelDecision later_first.
Proof. intros a b. unfold later_first. apply _. Defined.

Definition sort_later_first (items : list FeedItem) : list FeedItem :=
  merge_sort later_first items.

Lemma sort_later_first_perm items : sort_later_first items ≡ₚ items.
Proof. apply merge_sort_Permutation. Qed.

Lemma sort_later_first_sorted items :
  StronglySorted (λ a b, Time b <= Time a) (sort_later_first items).
Proof.
  assert (Transitive later_first) by (intros a b c; unfold later_first; lia).
  assert (Total later_first) by (intros a b; unfold later_first; lia).
  apply (StronglySorted_merge_sort later_first).
Qed.

(** A decoder that stores nothing, an encoder that writes an empty
    document, a formatter that prints no digits, and a feed decoder that
    knows three bodies. *)
Definition decode_nothing : string → State → State := λ _ st, st.
Definition encode_blank : State → string := λ _, "".
Definition format_blank : Z → string := λ _, "....-..-.. ..:..".

Definition item (title : string) (time : Z) : FeedItem :=
  {| Title := title; Link := "https://archlinux.org/news/" +:+ title;
     Time := time; GUID := title |}.

Definition feed_decode (body : string) : string + list FeedItem :=
  if decide (body = "three items") then
    inr [item "first" 10; item "third" 30; item "second" 20]
  else if decide (body = "ten") then inr [item "ten" 10]
  else if decide (body = "five") then inr [item "five" 5]
  else inl "XML syntax error".

(** A world without state file whose server answers 200 with the given
    body and a [Last-Modified] header. *)
Definition fresh_env (body : string) : Env :=
  {| state_file := Missing; request_err := None;
     http_do := λ _, Response StatusOK "200 OK" ["Wed, 01 May 2024 10:00:00 GMT"] body;
     mkdir_err := None; create_err := None |}.

Lemma state_persisted_after_fetch_witness :
  (∃ st, written (Updall.poll encode_blank feed_decode format_blank sort_later_first
                    (fresh_env "garbage") State_zero []) = [st] ∧
         LastModified st = "Wed, 01 May 2024 10:00:00 GMT") ∧
  written (News.poll encode_blank feed_decode format_blank sort_later_first
             (fresh_env "garbage") State_zero []) = [] ∧
  file_after (News.poll encode_blank feed_decode format_blank sort_later_first
                (fresh_env "garbage") State_zero []) = Missing.
Proof.
  destruct (state_persisted_after_fetch encode_blank feed_decode format_blank
              sort_later_first (fresh_env "garbage") State_zero [] "200 OK"
              ["Wed, 01 May 2024 10:00:00 GMT"] "garbage" eq_refl eq_refl)
    as [(st & Hw & Hl & _) Harch].
  split; [by exists st|]. exact Harch.
Defined.

(** C2, the claim as stated fails for [archupd.go] when the feed does
    not parse: the fetch succeeded with status 200, the poll sends its
    diagnostic line, and nothing is handed to [writeState]; the state
    file is still absent afterwards. *)
Lemma parse_failure_persists_nothing :
  let out := News.poll encode_blank feed_decode format_blank sort_later_first
               (fresh_env "garbage") State_zero [] in
  channel out = ["Arch Linux news: failed to decode feed: XML syntax error"] ∧
  written out = [] ∧
  file_after out = Missing.
Proof. by vm_compute. Qed.

Lemma watermark_follows_feed_witness :
  ∃ st, written (News.poll encode_blank feed_decode format_blank sort_later_first
                   (fresh_env "three items") State_zero []) = [st] ∧
        0 <= LatestItemTime st.
Proof.
  destruct (watermark_follows_feed encode_blank feed_decode format_blank
              sort_later_first sort_later_first_perm sort_later_first_sorted
              (fresh_env "three items") State_zero [] "200 OK"
              ["Wed, 01 May 2024 10:00:00 GMT"] "three items"
              [item "first" 10; item "third" 30; item "second" 20]
              eq_refl eq_refl eq_refl ltac:(discriminate))
    as (st & Hw & _ & _ & _ & Hiff).
  exists st. split; [exact Hw|].
  apply Hiff. exists (item "first" 10). split; [by left|]. simpl. lia.
Defined.

(** C4, the claim as stated fails when the newest item of a later feed
    is older than the watermark: a first poll of a feed whose one item has
    time 10 persists the watermark 10; the next poll starts from that
    state, finds a feed whose one item has time 5, and persists the
    watermark 5. Both polls succeed and both feeds hold an item. *)
Lemma watermark_goes_back :
  let poll := News.poll encode_blank feed_decode format_blank sort_later_first in
  ∃ st1 st2,
    written (poll (fresh_env "ten") State_zero []) = [st1] ∧
    written (poll (fresh_env "five") st1 []) = [st2] ∧
    LatestItemTime st1 = 10 ∧
    LatestItemTime st2 = 5 ∧
    ¬ (LatestItemTime st1 <= LatestItemTime st2).
Proof.
  eexists _, _. split; [by vm_compute|]. split; [by vm_compute|].
  split; [reflexivity|]. split; [reflexivity|]. simpl. lia.
Qed.

Lemma no_duplicate_announcement_witness :
  ∃ emitted st,
    emitted ≡ₚ [item "first" 10; item "third" 30; item "second" 20] ∧
    channel (News.readNews decode_nothing encode_blank feed_decode format_blank
               sort_later_first (fresh_env "three items")) =
      "Arch Linux news:" :: (News.item_line format_blank <$> emitted) ∧
    written (News.readNews decode_nothing encode_blank feed_decode format_blank
               sort_later_first (fresh_env "three items")) = [st] ∧
    LatestItemTime st = 30.
Proof.
  destruct (no_duplicate_announcement decode_nothing encode_blank feed_decode
              format_blank sort_later_first sort_later_first_perm
              sort_later_first_sorted (fresh_env "three items") "200 OK"
              ["Wed, 01 May 2024 10:00:00 GMT"] "three items"
              [item "first" 10; item "third" 30; item "second" 20]
              eq_refl eq_refl eq_refl ltac:(discriminate))
    as (emitted & st & _ & _ & _ & Hw & Hmissing).
  destruct (Hmissing eq_refl) as [_ Hthree].
  destruct (Hthree _ _ _ eq_refl) as (Hperm & Hch & _ & Hmax); [simpl; lia..|].
  exists emitted, st. split; [exact Hperm|]. split; [exact Hch|].
  split; [exact Hw|]. exact Hmax.
Defined.

(** A world whose server answers that nothing changed. *)
Definition not_modified_env : Env :=
  {| state_file := Content "{}"; request_err := None;
     http_do := λ _, Response StatusNotModified "304 Not Modified" [] "";
     mkdir_err := None; create_err := None |}.

Lemma no_state_change_witness :
  channel (News.poll encode_blank feed_decode format_blank sort_later_first
             not_modified_env State_zero []) = ["No Arch Linux news."] ∧
  written (News.poll encode_blank feed_decode format_blank sort_later_first
             not_modified_env State_zero []) = [] ∧
  file_after (News.poll encode_blank feed_decode format_blank sort_later_first
                not_modified_env State_zero []) = Content "{}".
Proof.
  destruct (no_state_change_without_success encode_blank feed_decode format_blank
              sort_later_first not_modified_env State_zero [])
    as (_ & Hw & Hf & H304).
  - intros status lastMod body _. discriminate.
  - split; [|by split]. by apply (H304 "304 Not Modified" [] "").
Defined.

Lemma announced_newest_first_witness :
  ∃ emitted,
    StronglySorted (λ a b, Time b <= Time a) emitted ∧
    emitted ≡ₚ [item "first" 10; item "third" 30; item "second" 20].
Proof.
  destruct (announced_newest_first encode_blank feed_decode format_blank
              sort_later_first sort_later_first_perm sort_later_first_sorted
              (fresh_env "three items") State_zero [] "200 OK"
              ["Wed, 01 May 2024 10:00:00 GMT"] "three items"
              [item "first" 10; item "third" 30; item "second" 20]
              eq_refl eq_refl eq_refl ltac:(discriminate))
    as (emitted & Hsorted & Hperm & _).
  exists emitted. split; [exact Hsorted|exact Hperm].
Defined.

Lemma repoll_announces_nothing_witness :
  channel (News.poll encode_blank feed_decode format_blank sort_later_first
             (fresh_env "ten")
             {| LastModified := "Wed, 01 May 2024 10:00:00 GMT"; LatestItemTime := 10 |}
             []) = ["No Arch Linux news."].
Proof.
  apply (repoll_announces_nothing encode_blank feed_decode format_blank
           sort_later_first sort_later_first_perm sort_later_first_sorted
           (fresh_env "ten") (fresh_env "ten") State_zero
           {| LastModified := "Wed, 01 May 2024 10:00:00 GMT"; LatestItemTime := 10 |}
           [] [] "200 OK" "200 OK"
           ["Wed, 01 May 2024 10:00:00 GMT"] ["Wed, 01 May 2024 10:00:00 GMT"]
           "ten" "ten" [item "ten" 10] [item "ten" 10]);
    try reflexivity; try discriminate.
  intros it Hit. exists it. split; [exact Hit|]. apply Z.le_refl.
Defined.

Lemma next_request_carries_validator_witness :
  ∃ st,
    written (News.poll encode_blank feed_decode format_blank sort_later_first
               (fresh_env "ten") State_zero []) = [st] ∧
    request_headers st = [("If-Modified-Since", "Wed, 01 May 2024 10:00:00 GMT")].
Proof.
  apply (next_request_carries_validator encode_blank feed_decode format_blank
           sort_later_first (fresh_env "ten") State_zero [] "200 OK"
           ["Wed, 01 May 2024 10:00:00 GMT"] "ten" [item "ten" 10]); reflexivity.
Defined.

End NewsFacts.

(** ** The state store *)

Module NewsHostFacts.

Import News NewsHost.

Section Facts.

Variable Join : list string → string.
Variable json_decode : string → State → State.

Local Abbreviation stateFileName := (NewsHost.stateFileName Join).
Local Abbreviation readState := (NewsHost.readState Join json_decode).

(** C9, as amended. [readState] fails its caller in one case only: it
    panics, before it opens anything, when [XDG_STATE_HOME] is empty and
    the home directory is not known. In every other case it returns,
    for the state file of the name [stateFileName] forms: with no such
    file, the zero record, and it prints nothing; with a file that
    cannot be opened, the zero record, and it prints the error; with a
    file that can be opened, the record as the JSON decoder left it,
    starting from the zero record, and it prints nothing, whatever the
    decoder made of the content. *)
Theorem readState_fails_only_by_panic (host : Host) :
  (∀ err, readState host = Panics err ↔
          XDG_STATE_HOME host = "" ∧ UserHomeDir host = inr err) ∧
  (XDG_STATE_HOME host ≠ "" ∨ (∃ homePath, UserHomeDir host = inl homePath) →
   ∃ name st diag,
     stateFileName host = Returns name ∧
     readState host = Returns (st, diag) ∧
     match state_file (at_path host name) with
     | Missing => st = State_zero ∧ diag = []
     | Unreadable err => st = State_zero ∧ diag = [err]
     | Content data => st = json_decode data State_zero ∧ diag = []
     end).
Proof.
  unfold NewsHost.readState, NewsHost.stateFileName. split.
  - intros err. destruct (decide (XDG_STATE_HOME host = "")) as [Hxdg|Hxdg].
    + destruct (UserHomeDir host) as [homePath|e]; split.
      * discriminate.
      * intros [_ [=]].
      * intros [= ->]. done.
      * intros [_ [= ->]]. done.
    + split; [discriminate|]. intros [? _]. done.
  - intros Hname.
    assert (∃ name,
      (if decide (XDG_STATE_HOME host = "") then
         match UserHomeDir host with
         | inr err => Panics err
         | inl homePath =>
             Returns (Join [Join [homePath; ".local"; "state"]; "archupd.json"])
         end
       else Returns (Join [XDG_STATE_HOME host; "archupd.json"])) = Returns name)
      as (name & ->).
    { destruct (decide (XDG_STATE_HOME host = "")) as [Hxdg|Hxdg]; [|eauto].
      destruct Hname as [?|(homePath & ->)]; [done|eauto]. }
    exists name. unfold News.readState.
    destruct (state_file (at_path host name)); eauto 10.
Qed.

End Facts.

(** *** Concrete hosts *)

Definition join_slash (elem : list string) : string := String.concat "/" elem.

(** A host without [XDG_STATE_HOME] and without a home directory. *)
Definition homeless_host : Host :=
  {| XDG_STATE_HOME := "";
     UserHomeDir := inr (OtherError "$HOME is not defined");
     at_path := λ _, NewsFacts.fresh_env "ten" |}.

(** A host with a home directory and no state file. *)
Definition fresh_host : Host :=
  {| XDG_STATE_HOME := "";
     UserHomeDir := inl "/home/user";
     at_path := λ _, NewsFacts.fresh_env "ten" |}.

Lemma readState_returns_witness :
  NewsHost.stateFileName join_slash fresh_host =
    Returns "/home/user/.local/state/archupd.json" ∧
  NewsHost.readState join_slash NewsFacts.decode_nothing fresh_host =
    Returns (State_zero, []).
Proof.
  destruct (readState_fails_only_by_panic join_slash NewsFacts.decode_nothing fresh_host)
    as [_ Hreturns].
  destruct Hreturns as (name & st & diag & Hname & Hstate & Hfile).
  { right. by exists "/home/user". }
  split; [reflexivity|]. rewrite Hstate.
  injection Hname as <-. by destruct Hfile as [-> ->].
Defined.

(** C9, the claim as stated fails on a host where [XDG_STATE_HOME] is
    not set and the home directory is not known: [readState] does not
    return a record, it panics. *)
Lemma readState_panics_without_home :
  NewsHost.readState join_slash NewsFacts.decode_nothing homeless_host =
    Panics (OtherError "$HOME is not defined").
Proof. reflexivity. Qed.

End NewsHostFacts.

(** ** The orchestration of [updall.go] *)

Module UpdallFacts.

Import Archupd.

Section Facts.

Variable system : list (list string) → list string → gmap string string → CmdOutcome.

Local Abbreviation removeSuperfluousPackages := (UpdallMain.removeSuperfluousPackages system).
Local Abbreviation main := (UpdallMain.main system).

Lemma drain_extends news w :
  ∃ out, UpdallMain.drain news w = Ret () (emit w out).
Proof.
  revert w. induction news as [|s rest IH]; intros w; simpl.
  - exists []. by rewrite ArchupdFacts.emit_nil.
  - unfold mbind, prog_bind. rewrite ArchupdFacts.put_emit.
    destruct (IH (emit w [Text (("  - " +:+ s) +:+ nl)])) as (out & ->).
    eexists. by rewrite ArchupdFacts.emit_emit.
Qed.

Lemma updall_removeSuperfluousPackages_execs w :
  ∃ err w' rest out, removeSuperfluousPackages w = Ret err w' ∧
    execs w' = execs w ++ orphan_query :: rest ∧ stdout w' = stdout w ++ out.
Proof.
  unfold UpdallMain.removeSuperfluousPackages, Archupd.RunCapture, mbind, prog_bind.
  fold orphan_query.
  destruct (start_err (system (execs w) orphan_query (files w))) as [e|]; simpl.
  - destruct e as [code|msg]; [destruct (code =? 1)|]; simpl.
    + eexists _, _, [], [_]. split; [reflexivity|]. by split.
    + eexists _, _, [], []. split; [reflexivity|]. simpl. by rewrite List.app_nil_r.
    + eexists _, _, [], []. split; [reflexivity|]. simpl. by rewrite List.app_nil_r.
  - destruct (wait_err (system (execs w) orphan_query (files w))) as [[code|msg]|].
    + destruct (code =? 1); simpl.
      * eexists _, _, [], [_]. split; [reflexivity|]. by split.
      * eexists _, _, [], []. split; [reflexivity|]. simpl. by rewrite List.app_nil_r.
    + eexists _, _, [], []. split; [reflexivity|]. simpl. by rewrite List.app_nil_r.
    + destruct (length _ =? 0)%nat; simpl.
      * eexists _, _, [], []. split; [reflexivity|]. simpl. by rewrite List.app_nil_r.
      * match goal with |- context [Archupd.Run system ?argv ?w0] =>
          destruct (ArchupdFacts.Run_execs system argv w0) as (err & w' & -> & He & Ho) end.
        simpl in He, Ho. eexists _, _, [_], [_]. split; [reflexivity|].
        rewrite He, Ho, <- List.app_assoc. done.
Qed.

(** In [updall.go], when the cleanup succeeds, the log then holds [old],
    and the upgrade succeeds and leaves the log as [old] followed by
    [appended], the first thing the run prints is [appended], whole and
    unfiltered, and the orphan query is the next command it runs,
    whatever [appended] holds. *)
Theorem updall_prints_tail_then_queries_orphans (fs : gmap string string)
    (news : list string) (old appended : string) :
  let o1 := system [] cleanup_cmd fs in
  let o2 := system [cleanup_cmd] upgrade_cmd (files_after o1) in
  start_err o1 = None → wait_err o1 = None →
  files_after o1 !! UpdallMain.PACMAN_LOGFILE_PATH = Some old →
  start_err o2 = None → wait_err o2 = None →
  files_after o2 !! UpdallMain.PACMAN_LOGFILE_PATH = Some (old +:+ appended) →
  ∃ rest out,
    execs (world_of (main news (start fs))) =
      [cleanup_cmd; upgrade_cmd; orphan_query] ++ rest ∧
    stdout (world_of (main news (start fs))) = Text appended :: out.
Proof.
  intros o1 o2 Hs1 Hw1 Hold Hs2 Hw2 Hnew.
  unfold UpdallMain.main, mbind, prog_bind, Archupd.pacman, Archupd.Run. simpl.
  fold cleanup_cmd. fold o1. rewrite Hs1, Hw1. simpl.
  unfold newLogMonitor, Open, SeekEnd, mbind, prog_bind. simpl.
  rewrite Hold. simpl. rewrite Hold. simpl.
  fold upgrade_cmd. fold o2. rewrite Hs2, Hw2. simpl.
  unfold catchUp, ReadToEnd, mbind, prog_bind. simpl. rewrite Hnew. simpl.
  rewrite ArchupdFacts.skip_app.
  match goal with |- context [UpdallMain.removeSuperfluousPackages system ?w0] =>
    destruct (updall_removeSuperfluousPackages_execs w0) as (err & w' & rest & out & -> & He & Ho)
  end.
  simpl in He, Ho. destruct err as [e|]; simpl.
  - exists rest, (out ++ [PrintError e]). by rewrite He, Ho.
  - match goal with |- context [UpdallMain.drain news ?w0] =>
      destruct (drain_extends news w0) as (out' & ->) end.
    simpl. exists rest. eexists. rewrite He, Ho. split; [done|].
    rewrite <- !List.app_assoc. reflexivity.
Qed.

End Facts.

(** A system whose upgrade appends a line without marker to the log. *)
Definition plain_upgrade_system
    : list (list string) → list string → gmap string string → CmdOutcome :=
  λ _ argv fs,
    if decide (argv = upgrade_cmd) then
      {| start_err := None; cmd_stdout := ""; wait_err := None;
         files_after :=
           <[UpdallMain.PACMAN_LOGFILE_PATH :=
               default "" (fs !! UpdallMain.PACMAN_LOGFILE_PATH) +:+
               "[2024-05-01T10:00:00+0000] [PACMAN] synchronizing package lists" +:+ nl]> fs |}
    else ArchupdFacts.silent_outcome fs.

Lemma updall_prints_tail_witness :
  ∃ rest out,
    execs (world_of (UpdallMain.main plain_upgrade_system []
                       (start {[UpdallMain.PACMAN_LOGFILE_PATH := "old entry" +:+ nl]}))) =
      [cleanup_cmd; upgrade_cmd; orphan_query] ++ rest ∧
    stdout (world_of (UpdallMain.main plain_upgrade_system []
                        (start {[UpdallMain.PACMAN_LOGFILE_PATH := "old entry" +:+ nl]}))) =
      Text ("[2024-05-01T10:00:00+0000] [PACMAN] synchronizing package lists" +:+ nl) :: out.
Proof.
  apply (updall_prints_tail_then_queries_orphans plain_upgrade_system
           {[UpdallMain.PACMAN_LOGFILE_PATH := "old entry" +:+ nl]} []
           ("old entry" +:+ nl)); reflexivity.
Defined.

End UpdallFacts.
